(** * The HTTP component: construction, handler composition and lifecycle

    A shallow embedding of [src/cmd/api/main.go], second part (package
    [http]): the [Component] struct, its constructor [New], [createInfo],
    [createHTTPServer], and the two execution paths of [Run] and
    [listenAndServe] that meet on the unbuffered channel [chFail].

    Go values are embedded as follows.
    - [error] is [option string]: [None] is [nil].
    - [time.Duration] is a [Z] counting nanoseconds.
    - [map[string]interface{}] is a [gmap string value].
    - a handler is a function from a request and the state of the world
      (whatever the caller's closures captured, plus the logger sink) to an
      outcome and a new world; a Go panic is the outcome [Panicked].
    - option functions receive [*Component]; they are state transformers on
      the struct that also return an [error]. *)

From stdpp Require Import gmap strings list pretty.

(** ** Package constants (lines 65-70) *)

Module Const.
Definition Second : Z := 1000000000.
Definition httpPort : Z := 50000.
Definition httpReadTimeout : Z := 5 * Second.
Definition httpWriteTimeout : Z := 10 * Second.
Definition httpIdleTimeout : Z := 120 * Second.
End Const.

Definition error := option string.
Definition Duration := Z.

(** Values stored in the info map: the code stores strings and one int. *)
Inductive value :=
| VString (s : string)
| VInt (n : Z).

#[export] Instance value_eq_dec : EqDecision value.
Proof. solve_decision. Defined.

(** Modelled from the spec: the [HealthStatus] enumeration is declared
    outside [src/]; section 3 of the spec lists its variants. The source
    only names [Healthy]. *)
Inductive HealthStatus := Healthy | Unhealthy | Degraded.

Record Request := mkRequest { reqMethod : string; reqPath : string }.
Record Response := mkResponse { status : Z; body : string }.

Inductive Outcome :=
| Responded (r : Response)
| Panicked (v : string).

(** * The command (package [main], lines 1-51)

    [main] and [run]. The framework ([patron.Setup], [patron.New],
    [Service.Run]), the flag package and the runtime are outside the
    repository: the host record holds what they answer. The process is
    what it has written and which framework calls it has made. *)

Module Main.

Definition theVersion : string := "dev".
Definition serviceName : string := "go-patron-realworld-example-app".
Definition newline : string := String (Ascii.ascii_of_nat 10) "".

Inductive Call :=
| CallSetup (name version : string)
| CallNew (name version : string)
| CallRun.

Record Proc := mkProc {
  stdout : list string;
  stderr : list string;
  calls : list Call
}.

Definition startProc : Proc := mkProc [] [] [].

Definition called (p : Proc) (k : Call) : Proc :=
  mkProc (stdout p) (stderr p) (calls p ++ [k]).

(** A function either returns to its caller or ends the process with
    [os.Exit]. *)
Inductive Outcome (A : Type) :=
| Return (a : A) (p : Proc)
| Exit (code : Z) (p : Proc).
Arguments Return {A} a p.
Arguments Exit {A} code p.

(** What [flag.Parse] does with the command line. The default flag set
    ends the process on its own when it meets an undefined flag or a
    request for help, after writing its text to standard error; otherwise
    it returns, and the flag v has its value. *)
Inductive FlagParse :=
| Parsed (v : bool)
| ParseExits (code : Z) (text : string).

Section WithService.
Context {Service : Type}.

Record Host := mkHost {
  flagParse : FlagParse;         (* flag.Parse on os.Args[1:] *)
  arg0 : string;                 (* os.Args[0] *)
  runtimeVersion : string;       (* runtime.Version() *)
  patron_Setup : string → string → error;
  patron_New : string → string → Service * error;
  Service_Run : Service → error
}.

(** [run] (lines 23-51). [fmt.Errorf] with the verb v splices the message
    of the cause into the format. *)
Definition run (h : Host) (version : string) : Outcome error :=
  let p := startProc in
  match flagParse h with
  | ParseExits code text =>
      Exit code (mkProc (stdout p) (stderr p ++ [text]) (calls p))
  | Parsed showVersion =>
      if showVersion then
        Exit 0 (mkProc
                  (stdout p ++
                   [arg0 h +:+ " " +:+ version +:+ " (runtime: " +:+
                    runtimeVersion h +:+ ")" +:+ newline])
                  (stderr p) (calls p))
      else
        let p := called p (CallSetup serviceName version) in
        match patron_Setup h serviceName version with
        | Some err => Return (Some ("failed to set up logging: " +:+ err)) p
        | None =>
            let p := called p (CallNew serviceName version) in
            let '(srv, err) := patron_New h serviceName version in
            match err with
            | Some err => Return (Some ("failed to create service " +:+ err)) p
            | None =>
                let p := called p CallRun in
                match Service_Run h srv with
                | Some err => Return (Some ("failed to run service " +:+ err)) p
                | None => Return None p
                end
            end
        end
  end.

(** [main] (lines 16-21): the exit status of the process and what it
    leaves behind. Returning from [main] ends the process with status 0. *)
Definition main (h : Host) : Z * Proc :=
  match run h theVersion with
  | Exit code p => (code, p)
  | Return (Some err) p =>
      (1%Z, mkProc (stdout p) (stderr p ++ ["Error: " +:+ err]) (calls p))
  | Return None p => (0%Z, p)
  end.

End WithService.
Arguments Host : clear implicits.

End Main.

Section Http.
Set Default Proof Using "Type".
(** State reachable from the closures the caller registers (health
    predicate, handlers, middlewares). *)
Context {Env : Type}.

Record World := mkWorld { wenv : Env; wlog : list string }.

Definition Handler := Request → World → Outcome * World.
Definition MiddlewareFunc := Handler → Handler.
Definition HealthCheckFunc := World → HealthStatus * World.

(** The fields of [Route] that [createHTTPServer] reads. *)
Record Route := mkRoute {
  Pattern : string;
  Method : string;
  RHandler : Handler;
  Middlewares : list MiddlewareFunc
}.

(** [DefaultHealthCheck] (lines 72-75). *)
Definition DefaultHealthCheck : HealthCheckFunc := λ w, (Healthy, w).

(** [Component] (lines 77-89); the embedded mutex is part of the run
    state below. *)
Record Component := mkComponent {
  hc : HealthCheckFunc;
  httpPort : Z;
  httpReadTimeout : Duration;
  httpWriteTimeout : Duration;
  info : gmap string value;
  routes : list Route;
  middlewares : list MiddlewareFunc;
  certFile : string;
  keyFile : string
}.

Definition set_routes (c : Component) (rr : list Route) : Component :=
  mkComponent (hc c) (httpPort c) (httpReadTimeout c) (httpWriteTimeout c)
    (info c) rr (middlewares c) (certFile c) (keyFile c).

Definition set_info (c : Component) (i : gmap string value) : Component :=
  mkComponent (hc c) (httpPort c) (httpReadTimeout c) (httpWriteTimeout c)
    i (routes c) (middlewares c) (certFile c) (keyFile c).

(** [OptionFunc] is a Go function from a pointer to the struct to an
    [error]: the callee may write the struct, and reports an error or
    [nil]. *)
Definition OptionFunc := Component → Component * error.

(** ** Collaborators declared outside [src/] *)

(** [time.Duration.String] of the Go standard library. *)
Variable Duration_String : Duration → string.

(** The remaining built-in routes; their constructors take no
    argument. *)
Variable profilingRoutes : list Route.
Variable metricRoute : Route.
Variable infoRoute : Route.

(** Body written by the health handler for each status; the spec only
    says that the one for [Degraded] is a warning. *)
Variable healthBody : HealthStatus → string.

(** Modelled from the spec: the status the recovery wrapper answers
    with. Section 4.3 calls the answer a 500-class response. *)
Definition recoveryStatus : Z := 500.

(** The router of [github.com/julienschmidt/httprouter], as far as
    [createHTTPServer] uses it: creation, the two registration methods and
    its role as a handler. Registrations the library rejects are outside
    the model. *)
Variable Router : Type.
Variable httprouter_New : Router.
Variable Router_Handler : Router → string → string → Handler → Router.
Variable Router_HandlerFunc : Router → string → string → Handler → Router.
Variable Router_ServeHTTP : Router → Handler.

(** Modelled from the spec: only the call [healthCheckRoute(c.hc)] is in
    [src/]. Section 4.2: [GET /health] invokes the configured predicate
    on each call and maps Healthy to 200, Degraded to 200 with a
    warning body, Unhealthy to 503. *)
Definition healthStatusCode (s : HealthStatus) : Z :=
  match s with
  | Healthy => 200
  | Degraded => 200
  | Unhealthy => 503
  end.

(** Modelled from the spec: the handler of the health route, declared
    outside [src/]; it evaluates the predicate on every request
    (section 4.2: no caching). *)
Definition healthHandler (hcf : HealthCheckFunc) : Handler :=
  λ _ w, let '(s, w') := hcf w in
         (Responded (mkResponse (healthStatusCode s) (healthBody s)), w').

(** Modelled from the spec: the route descriptor of [GET /health]
    (sections 4.2 and 6), declared outside [src/]. *)
Definition healthCheckRoute (hcf : HealthCheckFunc) : Route :=
  mkRoute "/health" "GET" (healthHandler hcf) [].

(** Modelled from the spec: [MiddlewareChain] is declared outside
    [src/]. Section 4.3: for a terminal handler [f] and wrappers
    [mw[0..n-1]] it produces [mw[0](mw[1](...mw[n-1](f)))]. *)
Fixpoint MiddlewareChain (f : Handler) (mm : list MiddlewareFunc) : Handler :=
  match mm with
  | [] => f
  | m :: rest => m (MiddlewareChain f rest)
  end.

(** Modelled from the spec: [NewRecoveryMiddleware] is declared outside
    [src/]. Sections 4.3 and 7: a fault raised below the wrapper becomes a
    server-error response plus a logged diagnostic. *)
Definition NewRecoveryMiddleware : MiddlewareFunc :=
  λ next req w,
    match next req w with
    | (Responded r, w') => (Responded r, w')
    | (Panicked v, w') =>
        (Responded (mkResponse recoveryStatus ""),
         mkWorld (wenv w') (wlog w' ++ ["recovered from panic: " +:+ v]))
    end.

(** ** [New] (lines 91-117) *)

(** The loop of lines 103-108: the first non-nil error leaves the loop. *)
Fixpoint applyOptions (oo : list OptionFunc) (c : Component) : Component * error :=
  match oo with
  | [] => (c, None)
  | o :: rest =>
      let '(c', err) := o c in
      match err with
      | Some e => (c', Some e)
      | None => applyOptions rest c'
      end
  end.

(** Lines 93-101. Fields the literal leaves out are zero values. *)
Definition defaultComponent : Component :=
  {| hc := DefaultHealthCheck;
     httpPort := Const.httpPort;
     httpReadTimeout := Const.httpReadTimeout;
     httpWriteTimeout := Const.httpWriteTimeout;
     info := ∅;
     routes := [];
     middlewares := [];
     certFile := "";
     keyFile := "" |}.

(** [createInfo] (lines 178-189). *)
Definition createInfo (c : Component) : Component :=
  let i := <["type" := VString "http"]> (info c) in
  let i := <["port" := VInt (httpPort c)]> i in
  let i := <["read-timeout" := VString (Duration_String (httpReadTimeout c))]> i in
  let i := <["write-timeout" := VString (Duration_String (httpWriteTimeout c))]> i in
  let i := <["idle-timeout" := VString (Duration_String Const.httpIdleTimeout)]> i in
  let i :=
    if bool_decide (keyFile c ≠ "" ∧ certFile c ≠ "") then
      let i := <["type" := VString "https"]> i in
      let i := <["key-file" := VString (keyFile c)]> i in
      <["cert-file" := VString (certFile c)]> i
    else i in
  set_info c i.

(** Lines 110-113. *)
Definition appendBuiltins (c : Component) : Component :=
  let c := set_routes c (routes c ++ [healthCheckRoute (hc c)]) in
  let c := set_routes c (routes c ++ profilingRoutes) in
  let c := set_routes c (routes c ++ [metricRoute]) in
  set_routes c (routes c ++ [infoRoute]).

(** The two results of [New]: [(nil, err)] or [(&c, nil)]. *)
Definition New (oo : list OptionFunc) : option Component * error :=
  match applyOptions oo defaultComponent with
  | (_, Some e) => (None, Some e)
  | (c, None) => (Some (createInfo (appendBuiltins c)), None)
  end.

(** [Info] (lines 119-122). *)
Definition Info (c : Component) : gmap string value := info c.

(** ** [createHTTPServer] (lines 152-176) *)

Record Server := mkServer {
  Addr : string;
  ReadTimeout : Duration;
  WriteTimeout : Duration;
  IdleTimeout : Duration;
  SHandler : Handler
}.

(** The loop body of lines 155-164. *)
Definition registerRoute (router : Router) (route : Route) : Router :=
  if bool_decide (0 < length (Middlewares route))%nat then
    let h := MiddlewareChain (RHandler route) (Middlewares route) in
    Router_Handler router (Method route) (Pattern route) h
  else
    Router_HandlerFunc router (Method route) (Pattern route) (RHandler route).

Definition buildRouter (c : Component) : Router :=
  foldl registerRoute httprouter_New (routes c).

Definition createHTTPServer (c : Component) : Server :=
  let router := buildRouter c in
  let routerAfterMiddleware :=
    MiddlewareChain (Router_ServeHTTP router) [NewRecoveryMiddleware] in
  let routerAfterMiddleware :=
    MiddlewareChain routerAfterMiddleware (middlewares c) in
  {| Addr := ":" +:+ pretty (httpPort c);
     ReadTimeout := httpReadTimeout c;
     WriteTimeout := httpWriteTimeout c;
     IdleTimeout := Const.httpIdleTimeout;
     SHandler := routerAfterMiddleware |}.

(** ** [Run] and [listenAndServe] (lines 124-150)

    Two execution paths and one unbuffered channel. The caller's path
    runs [Run]; the statement [go c.listenAndServe(srv, chFail)] starts
    the background path. A send on [chFail] completes only together with
    the receive of the [select] in [Run]; until then the sender stays at
    its send statement. The blocking calls into [net/http]
    ([ListenAndServeTLS], [ListenAndServe], [Shutdown]) and the firing of
    [ctx.Done()] belong to the environment: the scheduler decides when
    they return and with which error. *)

Record Ctx := mkCtx { ctxId : nat; ctxDeadline : option Z }.

(** Program points of [Run]. *)
Inductive RunPC :=
| Run126            (* before c.Lock() *)
| Run127            (* holding the lock, before the setup *)
| Run131            (* after the go statement, before c.Unlock() *)
| Run133            (* at the select *)
| Run136            (* inside srv.Shutdown(ctx) *)
| RunReturned (e : error).

(** Program points of [listenAndServe]. *)
Inductive BgPC :=
| BgNotStarted
| Bg143             (* at the if *)
| Bg145Serving      (* inside srv.ListenAndServeTLS *)
| Bg145Send (e : error)   (* at ch <- e of line 145 *)
| Bg148             (* before the log call of line 148 *)
| Bg149Serving      (* inside srv.ListenAndServe *)
| Bg149Send (e : error)   (* at ch <- e of line 149 *)
| BgEnd.

Inductive Event :=
| ELock
| EUnlock
| ELog (msg : string)
| EGo
| EListenAndServeTLS (srv : Server) (cert key : string)
| EListenAndServe (srv : Server)
| ESend (e : error)
| EShutdown (srv : Server) (ctx : Ctx)
| EShutdownReturned (e : error)
| ERunReturned (e : error).

Record State := mkState {
  caller : RunPC;
  bg : BgPC;
  mu : bool;                 (* the embedded sync.Mutex is held *)
  done : bool;               (* ctx.Done() is closed *)
  srv : option Server;       (* the local srv of Run, shared with the go call *)
  trace : list Event
}.

Definition initState : State :=
  mkState Run126 BgNotStarted false false None [].

(** What the scheduler and the environment may do next. *)
Inductive Label :=
| LRun                        (* the caller runs up to its next program point *)
| LBg                         (* the background path does the same *)
| LServeReturns (e : error)   (* the blocking listen call returns e *)
| LCtxDone                    (* the caller's token fires *)
| LRecv                       (* select: case err := <-chFail *)
| LDone                       (* select: case <-ctx.Done() *)
| LShutdownReturns (e : error).

Definition emit (s : State) (evs : list Event) : State :=
  mkState (caller s) (bg s) (mu s) (done s) (srv s) (trace s ++ evs).
Definition set_caller (s : State) (pc : RunPC) : State :=
  mkState pc (bg s) (mu s) (done s) (srv s) (trace s).
Definition set_bg (s : State) (pc : BgPC) : State :=
  mkState (caller s) pc (mu s) (done s) (srv s) (trace s).
Definition set_mu (s : State) (b : bool) : State :=
  mkState (caller s) (bg s) b (done s) (srv s) (trace s).
Definition set_done (s : State) (b : bool) : State :=
  mkState (caller s) (bg s) (mu s) b (srv s) (trace s).
Definition set_srv (s : State) (v : option Server) : State :=
  mkState (caller s) (bg s) (mu s) (done s) v (trace s).

(** The caller's non-blocking steps (lines 126-131), for a component
    whose routes the router takes: a registration the router refuses
    panics inside [createHTTPServer], which the router being a parameter
    leaves out, as it leaves out the debug lines [createHTTPServer]
    logs. *)
Definition stepRun (c : Component) (s : State) : option State :=
  match caller s with
  | Run126 =>
      if mu s then None
      else Some (emit (set_mu (set_caller s Run127) true) [ELock])
  | Run127 =>
      let s := set_srv s (Some (createHTTPServer c)) in
      let s := set_bg s Bg143 in
      Some (emit (set_caller s Run131)
              [ELog "applying tracing to routes"; EGo])
  | Run131 => Some (emit (set_mu (set_caller s Run133) false) [EUnlock])
  | _ => None
  end.

(** The background path's non-blocking steps (lines 143-149): the
    condition of line 143, and the log call followed by the call of the
    listen function. After the send of line 145 control continues at
    line 148. *)
Definition stepBg (c : Component) (s : State) : option State :=
  match bg s, srv s with
  | Bg143, Some sv =>
      if bool_decide (certFile c ≠ "" ∧ keyFile c ≠ "") then
        Some (emit (set_bg s Bg145Serving)
                [ELog ("HTTPS component listening on port " +:+ pretty (httpPort c));
                 EListenAndServeTLS sv (certFile c) (keyFile c)])
      else Some (set_bg s Bg148)
  | Bg148, Some sv =>
      Some (emit (set_bg s Bg149Serving)
              [ELog ("HTTP component listening on port " +:+ pretty (httpPort c));
               EListenAndServe sv])
  | _, _ => None
  end.

Definition stepServeReturns (e : error) (s : State) : option State :=
  match bg s with
  | Bg145Serving => Some (set_bg s (Bg145Send e))
  | Bg149Serving => Some (set_bg s (Bg149Send e))
  | _ => None
  end.

(** The [chFail] case of the select: enabled when the caller is at the
    select and the background path is at a send. Both move on. *)
Definition stepRecv (s : State) : option State :=
  match caller s, bg s with
  | Run133, Bg145Send e =>
      Some (emit (set_bg (set_caller s (RunReturned e)) Bg148)
              [ESend e; ERunReturned e])
  | Run133, Bg149Send e =>
      Some (emit (set_bg (set_caller s (RunReturned e)) BgEnd)
              [ESend e; ERunReturned e])
  | _, _ => None
  end.

(** The [ctx.Done()] case: log, then call [srv.Shutdown(ctx)]. *)
Definition stepDone (ctx : Ctx) (s : State) : option State :=
  match caller s, srv s with
  | Run133, Some sv =>
      if done s then
        Some (emit (set_caller s Run136)
                [ELog "shutting down component"; EShutdown sv ctx])
      else None
  | _, _ => None
  end.

Definition stepShutdownReturns (e : error) (s : State) : option State :=
  match caller s with
  | Run136 =>
      Some (emit (set_caller s (RunReturned e))
              [EShutdownReturned e; ERunReturned e])
  | _ => None
  end.

Definition step (c : Component) (ctx : Ctx) (s : State) (l : Label) : option State :=
  match l with
  | LRun => stepRun c s
  | LBg => stepBg c s
  | LServeReturns e => stepServeReturns e s
  | LCtxDone => Some (set_done s true)
  | LRecv => stepRecv s
  | LDone => stepDone ctx s
  | LShutdownReturns e => stepShutdownReturns e s
  end.

(** A schedule is a list of labels; it is feasible from [s] when every
    label is enabled in turn. *)
Fixpoint exec (c : Component) (ctx : Ctx) (s : State) (ls : list Label) : option State :=
  match ls with
  | [] => Some s
  | l :: rest =>
      match step c ctx s l with
      | Some s' => exec c ctx s' rest
      | None => None
      end
  end.

Definition Run (c : Component) (ctx : Ctx) (ls : list Label) : option State :=
  exec c ctx initState ls.

(** Projections of a trace. *)
Definition sends (tr : list Event) : list error :=
  omap (λ ev, match ev with ESend e => Some e | _ => None end) tr.
Definition shutdowns (tr : list Event) : list (Server * Ctx) :=
  omap (λ ev, match ev with EShutdown sv ctx => Some (sv, ctx) | _ => None end) tr.
Definition shutdownResults (tr : list Event) : list error :=
  omap (λ ev, match ev with EShutdownReturned e => Some e | _ => None end) tr.
Definition runReturns (tr : list Event) : list error :=
  omap (λ ev, match ev with ERunReturned e => Some e | _ => None end) tr.
Definition tlsListens (tr : list Event) : list (string * string) :=
  omap (λ ev, match ev with EListenAndServeTLS _ cf kf => Some (cf, kf) | _ => None end) tr.
Definition plainListens (tr : list Event) : nat :=
  length (omap (λ ev, match ev with EListenAndServe sv => Some sv | _ => None end) tr).

(** ** Serving requests *)

(** The accept-and-serve loop of [net/http], by the contract of
    [http.Handler]: requests reach the installed handler one after the
    other; when the handler panics, the server takes the fault to be
    confined to that request, recovers it, closes the connection without a
    response and goes on serving. The result is, for each request, the
    response written if there is one, and the world afterwards. What the
    server writes to its own error log is not part of the world. *)
Fixpoint serve (h : Handler) (reqs : list Request) (w : World)
  : list (option Response) * World :=
  match reqs with
  | [] => ([], w)
  | r :: rest =>
      match h r w with
      | (Responded resp, w') =>
          let '(outs, w'') := serve h rest w' in (Some resp :: outs, w'')
      | (Panicked v, w') =>
          let '(outs, w'') := serve h rest w' in (None :: outs, w'')
      end
  end.

(** ** The claims in the words of the spec, for comparison *)

(** Left-to-right application that keeps the first failure. *)
Definition stepOption (acc : Component * error) (o : OptionFunc) : Component * error :=
  match acc with
  | (c, None) => o c
  | (c, Some e) => (c, Some e)
  end.

(** TLS is active: both paths are non-empty. *)
Definition tlsActive (c : Component) : Prop := certFile c ≠ "" ∧ keyFile c ≠ "".

#[local] Instance tlsActive_dec c : Decision (tlsActive c).
Proof. unfold tlsActive. apply _. Defined.

(** Section 6 and the invariant of section 3, read as an "exactly when". *)
Definition info_as_claimed (c : Component) : Prop :=
  info c !! "type" = Some (VString (if decide (tlsActive c) then "https" else "http")) ∧
  info c !! "port" = Some (VInt (httpPort c)) ∧
  info c !! "read-timeout" = Some (VString (Duration_String (httpReadTimeout c))) ∧
  info c !! "write-timeout" = Some (VString (Duration_String (httpWriteTimeout c))) ∧
  info c !! "idle-timeout" = Some (VString (Duration_String Const.httpIdleTimeout)) ∧
  (is_Some (info c !! "key-file") ↔ tlsActive c) ∧
  (is_Some (info c !! "cert-file") ↔ tlsActive c).

(** The keys [createInfo] may assign. *)
Definition infoKeys : list string :=
  ["type"; "port"; "read-timeout"; "write-timeout"; "idle-timeout";
   "key-file"; "cert-file"].

(** An option function that leaves the health predicate alone. *)
Definition keeps_hc (o : OptionFunc) : Prop := ∀ c, hc (o c).1 = hc c.

(** A handler that answers every request. *)
Definition responds (h : Handler) : Prop :=
  ∀ req w, ∃ r w', h req w = (Responded r, w').

(** A wrapper that raises no fault of its own. *)
Definition safe_mw (m : MiddlewareFunc) : Prop :=
  ∀ next, responds next → responds (m next).

(** No value has passed the channel and no shutdown has been asked for. *)
Definition quiet (tr : list Event) : Prop :=
  sends tr = [] ∧ shutdowns tr = [] ∧ shutdownResults tr = [] ∧ runReturns tr = [].

(** What holds at each program point of [Run], whatever the background
    path and the environment have done meanwhile. *)
Definition Inv (c : Component) (ctx : Ctx) (s : State) : Prop :=
  match caller s with
  | Run126 | Run127 => quiet (trace s)
  | Run131 | Run133 =>
      srv s = Some (createHTTPServer c) ∧ quiet (trace s)
  | Run136 =>
      srv s = Some (createHTTPServer c) ∧
      sends (trace s) = [] ∧
      shutdowns (trace s) = [(createHTTPServer c, ctx)] ∧
      shutdownResults (trace s) = [] ∧
      runReturns (trace s) = []
  | RunReturned e =>
      runReturns (trace s) = [e] ∧
      ((sends (trace s) = [e] ∧
        shutdowns (trace s) = [] ∧
        shutdownResults (trace s) = []) ∨
       (sends (trace s) = [] ∧
        shutdowns (trace s) = [(createHTTPServer c, ctx)] ∧
        shutdownResults (trace s) = [e]))
  end.

(** ** Further bookkeeping for the lifecycle *)

(** The errors the listen calls returned, in the order of the schedule. *)
Definition served (ls : list Label) : list error :=
  omap (λ l, match l with LServeReturns e => Some e | _ => None end) ls.

(** The servers the calls into [net/http] were made on. *)
Definition servers (tr : list Event) : list Server :=
  omap (λ ev, match ev with
              | EListenAndServeTLS sv _ _ => Some sv
              | EListenAndServe sv => Some sv
              | EShutdown sv _ => Some sv
              | _ => None
              end) tr.

(** Program points of [Run] between [c.Lock()] and [c.Unlock()]. *)
Definition holdsLock (pc : RunPC) : bool :=
  match pc with
  | Run127 | Run131 => true
  | _ => false
  end.

(** Program points of [Run] after the go statement. *)
Definition spawned (pc : RunPC) : bool :=
  match pc with
  | Run126 | Run127 => false
  | _ => true
  end.

(** The caller's side: the mutex, whether the background path exists, and
    the local [srv]. *)
Definition CallerInv (c : Component) (s : State) : Prop :=
  mu s = holdsLock (caller s) ∧
  (bg s = BgNotStarted ↔ spawned (caller s) = false) ∧
  srv s = (if spawned (caller s) then Some (createHTTPServer c) else None).

(** The background path's side, at each of its program points: which
    listen calls were made, which errors they returned and which of them
    passed the channel. *)
Definition BgInv (c : Component) (ls : list Label) (s : State) : Prop :=
  match bg s with
  | BgNotStarted | Bg143 =>
      served ls = [] ∧ tlsListens (trace s) = [] ∧
      plainListens (trace s) = 0%nat ∧ sends (trace s) = []
  | Bg145Serving =>
      tlsActive c ∧ served ls = [] ∧
      tlsListens (trace s) = [(certFile c, keyFile c)] ∧
      plainListens (trace s) = 0%nat ∧ sends (trace s) = []
  | Bg145Send e =>
      tlsActive c ∧ served ls = [e] ∧
      tlsListens (trace s) = [(certFile c, keyFile c)] ∧
      plainListens (trace s) = 0%nat ∧ sends (trace s) = []
  | Bg148 =>
      plainListens (trace s) = 0%nat ∧
      ((tlsActive c ∧ tlsListens (trace s) = [(certFile c, keyFile c)] ∧
        ∃ e, served ls = [e] ∧ sends (trace s) = [e]) ∨
       (¬ tlsActive c ∧ tlsListens (trace s) = [] ∧
        served ls = [] ∧ sends (trace s) = []))
  | Bg149Serving =>
      plainListens (trace s) = 1%nat ∧
      ((tlsActive c ∧ tlsListens (trace s) = [(certFile c, keyFile c)] ∧
        ∃ e, served ls = [e] ∧ sends (trace s) = [e]) ∨
       (¬ tlsActive c ∧ tlsListens (trace s) = [] ∧
        served ls = [] ∧ sends (trace s) = []))
  | Bg149Send e2 =>
      plainListens (trace s) = 1%nat ∧
      ((tlsActive c ∧ tlsListens (trace s) = [(certFile c, keyFile c)] ∧
        ∃ e1, served ls = [e1; e2] ∧ sends (trace s) = [e1]) ∨
       (¬ tlsActive c ∧ tlsListens (trace s) = [] ∧
        served ls = [e2] ∧ sends (trace s) = []))
  | BgEnd =>
      ¬ tlsActive c ∧ plainListens (trace s) = 1%nat ∧
      tlsListens (trace s) = [] ∧
      ∃ e, served ls = [e] ∧ sends (trace s) = [e]
  end.

(** An option function that leaves the info map alone. *)
Definition keeps_info (o : OptionFunc) : Prop := ∀ c, info (o c).1 = info c.

(** An option function that leaves the two TLS paths alone. *)
Definition keeps_tls (o : OptionFunc) : Prop :=
  ∀ c, certFile (o c).1 = certFile c ∧ keyFile (o c).1 = keyFile c.

(** ** Construction *)

Lemma applyOptions_app pre post c :
  applyOptions (pre ++ post) c =
  match applyOptions pre c with
  | (c', None) => applyOptions post c'
  | failed => failed
  end.
Proof.
  revert c. induction pre as [|o pre IH]; intros c; simpl; [done|].
  destruct (o c) as [c' [e|]]; [done|apply IH].
Qed.

Lemma foldl_stepOption_failed oo c e :
  foldl stepOption (c, Some e) oo = (c, Some e).
Proof. induction oo as [|o oo IH]; simpl; [done|apply IH]. Qed.

Lemma applyOptions_foldl oo c :
  applyOptions oo c = foldl stepOption (c, None) oo.
Proof.
  revert c. induction oo as [|o oo IH]; intros c; simpl; [done|].
  destruct (o c) as [c' [e|]].
  - by rewrite foldl_stepOption_failed.
  - apply IH.
Qed.

Lemma applyOptions_failed oo c c2 e :
  applyOptions oo c = (c2, Some e) →
  ∃ pre o post c1,
    oo = pre ++ o :: post ∧ applyOptions pre c = (c1, None) ∧ o c1 = (c2, Some e).
Proof.
  revert c. induction oo as [|o oo IH]; intros c; simpl; [done|].
  destruct (o c) as [c' [e'|]] eqn:Ho.
  - intros [= -> ->]. by exists [], o, oo, c.
  - intros H. destruct (IH _ H) as (pre & o' & post & c1 & -> & Hpre & Ho').
    exists (o :: pre), o', post, c1. simpl. by rewrite Ho.
Qed.

Lemma New_inv oo c e :
  New oo = (Some c, e) →
  e = None ∧
  ∃ c', applyOptions oo defaultComponent = (c', None) ∧
        c = createInfo (appendBuiltins c').
Proof.
  unfold New. destruct (applyOptions oo defaultComponent) as [c' [e'|]]; [done|].
  intros [= <- <-]. eauto.
Qed.

Lemma routes_createInfo c : routes (createInfo c) = routes c.
Proof. done. Qed.

Lemma routes_appendBuiltins c :
  routes (appendBuiltins c) =
  routes c ++ [healthCheckRoute (hc c)] ++ profilingRoutes ++ [metricRoute] ++ [infoRoute].
Proof. unfold appendBuiltins. simpl. by rewrite <- !(assoc (++)). Qed.

(** C4. [New] applies the options from left to right to the default
    component and keeps the first failure: the loop is the left fold of
    [stepOption]. Either every option succeeds and the result is the
    component with the built-in routes and the info map, together with a nil
    error; or the first failing option's error is returned with no
    component, whatever options follow it. *)
Theorem New_options_first_failure (oo : list OptionFunc) :
  applyOptions oo defaultComponent = foldl stepOption (defaultComponent, None) oo ∧
  ((∃ c, applyOptions oo defaultComponent = (c, None) ∧
         New oo = (Some (createInfo (appendBuiltins c)), None)) ∨
   (∃ pre o post c1 c2 e,
       oo = pre ++ o :: post ∧
       applyOptions pre defaultComponent = (c1, None) ∧
       o c1 = (c2, Some e) ∧
       New oo = (None, Some e) ∧
       ∀ post', New (pre ++ o :: post') = (None, Some e))).
Proof.
  split; [apply applyOptions_foldl|].
  destruct (applyOptions oo defaultComponent) as [c [e|]] eqn:Hoo.
  - right. destruct (applyOptions_failed _ _ _ _ Hoo)
      as (pre & o & post & c1 & -> & Hpre & Ho).
    exists pre, o, post, c1, c, e. repeat split; try done.
    + unfold New. by rewrite Hoo.
    + intros post'. unfold New. rewrite applyOptions_app, Hpre. simpl.
      by rewrite Ho.
  - left. exists c. split; [done|]. unfold New. by rewrite Hoo.
Qed.

Lemma New_routes_builtins_last_aux (oo : list OptionFunc) (c : Component) :
  New oo = (Some c, None) →
  ∃ c', applyOptions oo defaultComponent = (c', None) ∧
    hc c = hc c' ∧ healthCheckRoute (hc c') ∈ routes c.
Proof.
  intros HN. destruct (New_inv _ _ _ HN) as (_ & c' & Hoo & ->).
  exists c'. split; [done|]. split; [done|].
  rewrite routes_createInfo, routes_appendBuiltins.
  rewrite !elem_of_app, list_elem_of_singleton. auto.
Qed.

(** C5. After a successful [New] the routes are the routes the options
    left, in their order, followed by the health route, the profiling
    routes, the metrics route and the info route, each group once. *)
Theorem New_routes_builtins_last (oo : list OptionFunc) (c : Component) :
  New oo = (Some c, None) →
  ∃ c', applyOptions oo defaultComponent = (c', None) ∧
    routes c =
      routes c' ++ [healthCheckRoute (hc c')] ++ profilingRoutes ++
      [metricRoute] ++ [infoRoute] ∧
    length (routes c) = (length (routes c') + (3 + length profilingRoutes))%nat ∧
    healthCheckRoute (hc c') ∈ routes c ∧
    profilingRoutes ⊆ routes c ∧
    metricRoute ∈ routes c ∧
    infoRoute ∈ routes c.
Proof.
  intros HN. destruct (New_inv _ _ _ HN) as (_ & c' & Hoo & ->).
  exists c'. split; [done|].
  rewrite routes_createInfo, routes_appendBuiltins.
  split; [done|]. split.
  { rewrite !length_app. simpl. lia. }
  repeat split.
  - rewrite !elem_of_app, list_elem_of_singleton. auto.
  - intros r Hr. rewrite !elem_of_app. auto.
  - rewrite !elem_of_app, !list_elem_of_singleton. auto.
  - rewrite !elem_of_app, !list_elem_of_singleton. auto 6.
Qed.

Ltac lookup_inserts :=
  repeat (rewrite lookup_insert_eq || rewrite lookup_insert_ne by done).

Lemma createInfo_lookup_tls c :
  tlsActive c →
  info (createInfo c) !! "type" = Some (VString "https") ∧
  info (createInfo c) !! "key-file" = Some (VString (keyFile c)) ∧
  info (createInfo c) !! "cert-file" = Some (VString (certFile c)).
Proof.
  intros [Hc Hk]. unfold createInfo. simpl.
  rewrite bool_decide_eq_true_2 by done.
  by lookup_inserts.
Qed.

Lemma createInfo_lookup_plain c :
  ¬ tlsActive c →
  info (createInfo c) !! "type" = Some (VString "http") ∧
  info (createInfo c) !! "key-file" = info c !! "key-file" ∧
  info (createInfo c) !! "cert-file" = info c !! "cert-file".
Proof.
  intros Hn. unfold createInfo. simpl.
  rewrite bool_decide_eq_false_2 by (intros [Hk Hc]; apply Hn; by split).
  by lookup_inserts.
Qed.

Lemma createInfo_lookup_common c :
  info (createInfo c) !! "port" = Some (VInt (httpPort c)) ∧
  info (createInfo c) !! "read-timeout" = Some (VString (Duration_String (httpReadTimeout c))) ∧
  info (createInfo c) !! "write-timeout" = Some (VString (Duration_String (httpWriteTimeout c))) ∧
  info (createInfo c) !! "idle-timeout" = Some (VString (Duration_String Const.httpIdleTimeout)).
Proof.
  unfold createInfo. simpl. case_bool_decide; by lookup_inserts.
Qed.

Lemma createInfo_lookup_other c k :
  k ∉ infoKeys → info (createInfo c) !! k = info c !! k.
Proof.
  unfold infoKeys. intros Hk. unfold createInfo. simpl.
  assert (k ≠ "type" ∧ k ≠ "port" ∧ k ≠ "read-timeout" ∧ k ≠ "write-timeout" ∧
          k ≠ "idle-timeout" ∧ k ≠ "key-file" ∧ k ≠ "cert-file") as (?&?&?&?&?&?&?).
  { repeat split; intros ->; apply Hk; repeat constructor. }
  case_bool_decide; by lookup_inserts.
Qed.

(** C6, as amended. After a successful [New], [info] maps [type] to
    ["https"] when both paths are non-empty and to ["http"] otherwise, and
    holds the port and the three formatted timeouts. When TLS is active
    [key-file] and [cert-file] hold the two paths. When it is not,
    [createInfo] writes neither: they are as the options left them, hence
    absent when no option wrote to the map. No other key is touched. *)
Theorem New_info (oo : list OptionFunc) (c : Component) :
  New oo = (Some c, None) →
  ∃ c', applyOptions oo defaultComponent = (c', None) ∧
    info c !! "type" = Some (VString (if decide (tlsActive c) then "https" else "http")) ∧
    info c !! "port" = Some (VInt (httpPort c)) ∧
    info c !! "read-timeout" = Some (VString (Duration_String (httpReadTimeout c))) ∧
    info c !! "write-timeout" = Some (VString (Duration_String (httpWriteTimeout c))) ∧
    info c !! "idle-timeout" = Some (VString (Duration_String Const.httpIdleTimeout)) ∧
    (tlsActive c →
       info c !! "key-file" = Some (VString (keyFile c)) ∧
       info c !! "cert-file" = Some (VString (certFile c))) ∧
    (¬ tlsActive c →
       info c !! "key-file" = info c' !! "key-file" ∧
       info c !! "cert-file" = info c' !! "cert-file") ∧
    (¬ tlsActive c → info c' = ∅ →
       info c !! "key-file" = None ∧ info c !! "cert-file" = None) ∧
    (∀ k, k ∉ infoKeys → info c !! k = info c' !! k).
Proof.
  intros HN. destruct (New_inv _ _ _ HN) as (_ & c' & Hoo & ->).
  exists c'. split; [done|].
  set (d := appendBuiltins c').
  assert (Hi : info d = info c') by done.
  assert (Ht : tlsActive (createInfo d) ↔ tlsActive d) by done.
  destruct (createInfo_lookup_common d) as (Hp & Hr & Hw & Hidle).
  split.
  { destruct (decide (tlsActive (createInfo d))) as [Hy|Hn].
    - by destruct (createInfo_lookup_tls d (proj1 Ht Hy)) as (-> & _).
    - by destruct (createInfo_lookup_plain d (λ H, Hn (proj2 Ht H))) as (-> & _). }
  repeat split; try done.
  - by destruct (createInfo_lookup_tls d (proj1 Ht H)) as (_ & -> & _).
  - by destruct (createInfo_lookup_tls d (proj1 Ht H)) as (_ & _ & ->).
  - destruct (createInfo_lookup_plain d (λ H', H (proj2 Ht H'))) as (_ & -> & _).
    by rewrite Hi.
  - destruct (createInfo_lookup_plain d (λ H', H (proj2 Ht H'))) as (_ & _ & ->).
    by rewrite Hi.
  - destruct (createInfo_lookup_plain d (λ H', H (proj2 Ht H'))) as (_ & -> & _).
    by rewrite Hi, H0.
  - destruct (createInfo_lookup_plain d (λ H', H (proj2 Ht H'))) as (_ & _ & ->).
    by rewrite Hi, H0.
  - intros k Hk. by rewrite createInfo_lookup_other, Hi.
Qed.

Lemma applyOptions_keeps_hc oo c c' :
  Forall keeps_hc oo → applyOptions oo c = (c', None) → hc c' = hc c.
Proof.
  intros Hk. revert c. induction Hk as [|o oo Ho _ IH]; intros c; simpl.
  - by intros [= ->].
  - specialize (Ho c). destruct (o c) as [c1 [e|]]; [done|].
    intros H. rewrite (IH _ H). exact Ho.
Qed.

(** C10. When no option touches the health predicate, the component
    [New] returns has the default predicate, which reports [Healthy] in
    every state and changes nothing; the health route registered by [New]
    is the one built from it, and its handler answers 200 to every
    request. *)
Theorem New_default_health (oo : list OptionFunc) (c : Component) :
  Forall keeps_hc oo →
  New oo = (Some c, None) →
  hc c = DefaultHealthCheck ∧
  (∀ w, hc c w = (Healthy, w)) ∧
  healthCheckRoute DefaultHealthCheck ∈ routes c ∧
  ∀ req w,
    RHandler (healthCheckRoute (hc c)) req w =
    (Responded (mkResponse 200 (healthBody Healthy)), w).
Proof.
  intros Hk HN.
  destruct (New_routes_builtins_last_aux oo c HN) as (c' & Hoo & Hhc & Hin).
  pose proof (applyOptions_keeps_hc _ _ _ Hk Hoo) as Hd.
  change (hc defaultComponent) with DefaultHealthCheck in Hd.
  assert (hc c = DefaultHealthCheck) as Hc by (by rewrite Hhc, Hd).
  split; [done|]. split; [by rewrite Hc|]. split.
  - by rewrite <- Hd.
  - intros req w. by rewrite Hc.
Qed.

(** ** Handler composition *)

Lemma MiddlewareChain_foldr f mm :
  MiddlewareChain f mm = foldr (λ m h, m h) f mm.
Proof. induction mm as [|m mm IH]; simpl; [done|by rewrite IH]. Qed.

Lemma MiddlewareChain_app f mm1 mm2 :
  MiddlewareChain f (mm1 ++ mm2) = MiddlewareChain (MiddlewareChain f mm2) mm1.
Proof. induction mm1 as [|m mm1 IH]; simpl; [done|by rewrite IH]. Qed.

(** C7. The handler of the server [createHTTPServer] builds is the
    caller's middlewares applied around the recovery wrapper around the
    router, the first middleware outermost:
    [mw[0](mw[1](...mw[n-1](recovery(router))))]. The chain builder keeps
    the order of its list, and chaining in two calls is chaining the
    concatenation. *)
Theorem createHTTPServer_handler_order (c : Component) :
  SHandler (createHTTPServer c) =
    foldr (λ m h, m h)
      (NewRecoveryMiddleware (Router_ServeHTTP (buildRouter c)))
      (middlewares c) ∧
  SHandler (createHTTPServer c) =
    MiddlewareChain (Router_ServeHTTP (buildRouter c))
      (middlewares c ++ [NewRecoveryMiddleware]) ∧
  (∀ f m mm, MiddlewareChain f (m :: mm) = m (MiddlewareChain f mm)) ∧
  (∀ f, MiddlewareChain f [] = f).
Proof.
  split; [|split; [|done]].
  - unfold createHTTPServer. simpl. apply MiddlewareChain_foldr.
  - unfold createHTTPServer. simpl. by rewrite MiddlewareChain_app.
Qed.

Lemma recovery_responds (h : Handler) : responds (NewRecoveryMiddleware h).
Proof.
  intros req w. unfold NewRecoveryMiddleware.
  destruct (h req w) as [[r|v] w']; eauto.
Qed.

Lemma MiddlewareChain_responds f mm :
  Forall safe_mw mm → responds f → responds (MiddlewareChain f mm).
Proof.
  intros Hmm Hf. induction Hmm as [|m mm Hm _ IH]; simpl; [done|].
  by apply Hm.
Qed.

Lemma serve_responds h reqs w :
  responds h → Forall is_Some (serve h reqs w).1.
Proof.
  intros Hh. revert w. induction reqs as [|r reqs IH]; intros w; simpl.
  - constructor.
  - destruct (Hh r w) as (resp & w1 & ->).
    specialize (IH w1). destruct (serve h reqs w1) as [outs w2]. simpl in *.
    constructor; [by eexists|done].
Qed.

Lemma serve_one_panic h req w v w' :
  h req w = (Panicked v, w') → serve h [req] w = ([None], w').
Proof. intros H. simpl. by rewrite H. Qed.

Lemma serve_length h reqs w : length (serve h reqs w).1 = length reqs.
Proof.
  revert w. induction reqs as [|r reqs IH]; intros w; simpl; [done|].
  destruct (h r w) as [[resp|v] w1]; specialize (IH w1);
    destruct (serve h reqs w1) as [outs w2]; simpl in *; by rewrite IH.
Qed.

Lemma serve_app h reqs1 reqs2 w :
  serve h (reqs1 ++ reqs2) w =
  ((serve h reqs1 w).1 ++ (serve h reqs2 (serve h reqs1 w).2).1,
   (serve h reqs2 (serve h reqs1 w).2).2).
Proof.
  revert w. induction reqs1 as [|r reqs1 IH]; intros w; simpl.
  - by destruct (serve h reqs2 w).
  - destruct (h r w) as [[resp|v] w1]; rewrite (IH w1);
      destruct (serve h reqs1 w1) as [outs w2]; done.
Qed.

(** C8, as amended. A fault raised inside the router (a route handler or
    a per-route middleware) is turned by the recovery wrapper into a 5xx
    response and one more log line, and a response of the router passes
    unchanged; when the component-level middlewares raise no fault of
    their own, every request is answered. A fault of a component-level
    middleware is outside the wrapper: each such middleware wraps the
    wrapper, never the other way round, and when the outermost one panics,
    the panic leaves the installed handler as it is and the request gets
    no response. In either case the serving path lives on: every request
    is taken up, and the requests after any prefix are served from the
    world the prefix left. *)
Theorem recovery_contains_router_faults (c : Component) :
  (∀ req w v w',
     Router_ServeHTTP (buildRouter c) req w = (Panicked v, w') →
     ∃ r, NewRecoveryMiddleware (Router_ServeHTTP (buildRouter c)) req w =
            (Responded r,
             mkWorld (wenv w') (wlog w' ++ ["recovered from panic: " +:+ v])) ∧
          (500 ≤ status r ≤ 599)%Z) ∧
  (∀ req w r w',
     Router_ServeHTTP (buildRouter c) req w = (Responded r, w') →
     NewRecoveryMiddleware (Router_ServeHTTP (buildRouter c)) req w =
       (Responded r, w')) ∧
  (Forall safe_mw (middlewares c) →
     responds (SHandler (createHTTPServer c)) ∧
     ∀ reqs w, Forall is_Some (serve (SHandler (createHTTPServer c)) reqs w).1) ∧
  (∀ pre m post,
     middlewares c = pre ++ m :: post →
     SHandler (createHTTPServer c) =
     MiddlewareChain
       (m (MiddlewareChain
             (NewRecoveryMiddleware (Router_ServeHTTP (buildRouter c))) post))
       pre) ∧
  (∀ m rest req w v w',
     middlewares c = m :: rest →
     (∀ next, m next req w = (Panicked v, w')) →
     SHandler (createHTTPServer c) req w = (Panicked v, w') ∧
     serve (SHandler (createHTTPServer c)) [req] w = ([None], w')) ∧
  (∀ reqs w,
     length (serve (SHandler (createHTTPServer c)) reqs w).1 = length reqs) ∧
  (∀ reqs1 reqs2 w,
     serve (SHandler (createHTTPServer c)) (reqs1 ++ reqs2) w =
     ((serve (SHandler (createHTTPServer c)) reqs1 w).1 ++
      (serve (SHandler (createHTTPServer c)) reqs2
         (serve (SHandler (createHTTPServer c)) reqs1 w).2).1,
      (serve (SHandler (createHTTPServer c)) reqs2
         (serve (SHandler (createHTTPServer c)) reqs1 w).2).2)).
Proof.
  split_and!.
  - intros req w v w' Hp. unfold NewRecoveryMiddleware. rewrite Hp.
    eexists. split; [done|]. unfold recoveryStatus. simpl. lia.
  - intros req w r w' Hp. unfold NewRecoveryMiddleware. by rewrite Hp.
  - intros Hmm.
    assert (responds (SHandler (createHTTPServer c))) as Hr.
    { unfold createHTTPServer. simpl.
      apply MiddlewareChain_responds; [done|apply recovery_responds]. }
    split; [done|]. intros reqs w. by apply serve_responds.
  - intros pre m post Hm. unfold createHTTPServer. simpl.
    by rewrite Hm, MiddlewareChain_app.
  - intros m rest req w v w' Hm Hp.
    assert (SHandler (createHTTPServer c) req w = (Panicked v, w')) as Hh.
    { unfold createHTTPServer. simpl. rewrite Hm. simpl. apply Hp. }
    split; [done|]. exact (serve_one_panic _ _ _ _ _ Hh).
  - intros reqs w. apply serve_length.
  - intros reqs1 reqs2 w. apply serve_app.
Qed.

(** C9. The health route is [GET /health]. Its handler evaluates the
    predicate in the current world on each request and answers 200 for
    [Healthy], 200 with the warning body for [Degraded] and 503 for
    [Unhealthy]; two requests in a row evaluate it twice, the second time
    in the world the first evaluation left. *)
Theorem health_route_evaluates_each_call (hcf : HealthCheckFunc) :
  Method (healthCheckRoute hcf) = "GET" ∧
  Pattern (healthCheckRoute hcf) = "/health" ∧
  (∀ req w,
     RHandler (healthCheckRoute hcf) req w =
     (Responded (mkResponse (healthStatusCode (hcf w).1) (healthBody (hcf w).1)),
      (hcf w).2)) ∧
  healthStatusCode Healthy = 200%Z ∧
  healthStatusCode Degraded = 200%Z ∧
  healthStatusCode Unhealthy = 503%Z ∧
  ∀ r1 r2 w,
    serve (RHandler (healthCheckRoute hcf)) [r1; r2] w =
    ([Some (mkResponse (healthStatusCode (hcf w).1) (healthBody (hcf w).1));
      Some (mkResponse (healthStatusCode (hcf (hcf w).2).1)
                       (healthBody (hcf (hcf w).2).1))],
     (hcf (hcf w).2).2).
Proof.
  repeat split; try done.
  - intros req w. simpl. unfold healthHandler. by destruct (hcf w).
  - intros r1 r2 w. simpl. unfold healthHandler.
    destruct (hcf w) as [s1 w1]. simpl. by destruct (hcf w1) as [s2 w2].
Qed.

(** ** Lifecycle *)

Ltac unfold_steps :=
  unfold step, stepRun, stepBg, stepServeReturns, stepRecv, stepDone,
    stepShutdownReturns, emit, set_caller, set_bg, set_mu, set_done, set_srv.

Lemma Inv_init c ctx : Inv c ctx initState.
Proof. by unfold Inv, quiet. Qed.


Lemma silent_app tr evs :
  quiet evs →
  sends (tr ++ evs) = sends tr ∧
  shutdowns (tr ++ evs) = shutdowns tr ∧
  shutdownResults (tr ++ evs) = shutdownResults tr ∧
  runReturns (tr ++ evs) = runReturns tr.
Proof.
  unfold quiet, sends, shutdowns, shutdownResults, runReturns.
  rewrite !omap_app. intros (-> & -> & -> & ->). by rewrite !app_nil_r.
Qed.

Lemma Inv_silent c ctx ca b m d sv tr b' m' d' evs :
  quiet evs →
  Inv c ctx (mkState ca b m d sv tr) →
  Inv c ctx (mkState ca b' m' d' sv (tr ++ evs)).
Proof.
  intros Hq. unfold Inv, quiet. simpl.
  destruct (silent_app tr evs Hq) as (-> & -> & -> & ->). done.
Qed.

Lemma stepRun_Inv c ctx s s' :
  Inv c ctx s → stepRun c s = Some s' → Inv c ctx s'.
Proof.
  destruct s as [ca b m d sv tr]. unfold stepRun, Inv. unfold_steps. simpl.
  intros HI Hs. destruct ca; try discriminate.
  - destruct m; [discriminate|]. injection Hs as <-. simpl.
    unfold quiet in *. by destruct (silent_app tr [ELock]) as (-> & -> & -> & ->).
  - injection Hs as <-. simpl. split; [done|].
    unfold quiet in *.
    by destruct (silent_app tr [ELog "applying tracing to routes"; EGo])
      as (-> & -> & -> & ->).
  - injection Hs as <-. simpl. destruct HI as [-> HI]. split; [done|].
    unfold quiet in *. by destruct (silent_app tr [EUnlock]) as (-> & -> & -> & ->).
Qed.

Lemma stepBg_Inv c ctx s s' :
  Inv c ctx s → stepBg c s = Some s' → Inv c ctx s'.
Proof.
  destruct s as [ca b m d sv tr]. unfold stepBg. unfold_steps. simpl.
  intros HI Hs. destruct b, sv as [sv|]; try discriminate.
  - destruct (bool_decide _); injection Hs as <-.
    + eapply Inv_silent; [done|exact HI].
    + exact HI.
  - injection Hs as <-. eapply Inv_silent; [done|exact HI].
Qed.

Lemma stepServeReturns_Inv c ctx e s s' :
  Inv c ctx s → stepServeReturns e s = Some s' → Inv c ctx s'.
Proof.
  destruct s as [ca b m d sv tr]. unfold stepServeReturns. unfold_steps. simpl.
  intros HI Hs. destruct b; try discriminate; injection Hs as <-;
    exact HI.
Qed.

Lemma stepRecv_Inv c ctx s s' :
  Inv c ctx s → stepRecv s = Some s' → Inv c ctx s'.
Proof.
  destruct s as [ca b m d sv tr]. unfold stepRecv, Inv. unfold_steps. simpl.
  intros HI Hs. destruct ca; try discriminate.
  destruct HI as (_ & Hs1 & Hs2 & Hs3 & Hs4).
  destruct b; try discriminate; injection Hs as <-; simpl;
    unfold sends, shutdowns, shutdownResults, runReturns in *;
    rewrite !omap_app, ?Hs1, ?Hs2, ?Hs3, ?Hs4; simpl; auto.
Qed.

Lemma stepDone_Inv c ctx s s' :
  Inv c ctx s → stepDone ctx s = Some s' → Inv c ctx s'.
Proof.
  destruct s as [ca b m d sv tr]. unfold stepDone, Inv. unfold_steps. simpl.
  intros HI Hs. destruct ca, sv as [sv|], d; try discriminate.
  destruct HI as ([= ->] & Hs1 & Hs2 & Hs3 & Hs4).
  injection Hs as <-; simpl.
  unfold sends, shutdowns, shutdownResults, runReturns in *.
  rewrite !omap_app, ?Hs1, ?Hs2, ?Hs3, ?Hs4; simpl; auto.
Qed.

Lemma stepShutdownReturns_Inv c ctx e s s' :
  Inv c ctx s → stepShutdownReturns e s = Some s' → Inv c ctx s'.
Proof.
  destruct s as [ca b m d sv tr]. unfold stepShutdownReturns, Inv. unfold_steps. simpl.
  intros HI Hs. destruct ca; try discriminate.
  destruct HI as (_ & Hs1 & Hs2 & Hs3 & Hs4).
  injection Hs as <-; simpl.
  unfold sends, shutdowns, shutdownResults, runReturns in *.
  rewrite !omap_app, ?Hs1, ?Hs2, ?Hs3, ?Hs4; simpl; auto.
Qed.

Lemma step_Inv c ctx s l s' :
  Inv c ctx s → step c ctx s l = Some s' → Inv c ctx s'.
Proof.
  destruct l; simpl.
  - apply stepRun_Inv.
  - apply stepBg_Inv.
  - apply stepServeReturns_Inv.
  - intros HI [= <-]. exact HI.
  - apply stepRecv_Inv.
  - apply stepDone_Inv.
  - apply stepShutdownReturns_Inv.
Qed.

Lemma exec_Inv c ctx ls s s' :
  Inv c ctx s → exec c ctx s ls = Some s' → Inv c ctx s'.
Proof.
  revert s. induction ls as [|l ls IH]; simpl; intros s HI He.
  - by simplify_eq.
  - destruct (step c ctx s l) as [s1|] eqn:Hst; [|done].
    eapply IH; [|done]. by eapply step_Inv.
Qed.

Lemma Run_Inv c ctx ls s : Run c ctx ls = Some s → Inv c ctx s.
Proof. apply exec_Inv, Inv_init. Qed.

(** Once [Run] has returned nobody receives: a sender stays where it is. *)
Lemma no_receive_after_return c ctx s e :
  caller s = RunReturned e → step c ctx s LRecv = None.
Proof. destruct s as [ca b m d sv tr]. simpl. intros ->. done. Qed.

Ltac run_schedule :=
  cbv [Run exec step stepRun stepBg stepServeReturns stepRecv stepDone
       stepShutdownReturns initState emit set_caller set_bg set_mu set_done
       set_srv caller bg mu done srv trace app].

(** The setup always reaches the select, with the lock released and the
    background path started on the server built from the component. *)
Lemma Run_reaches_select c ctx :
  Run c ctx [LRun; LRun; LRun] =
  Some {| caller := Run133;
          bg := Bg143;
          mu := false;
          done := false;
          srv := Some (createHTTPServer c);
          trace := [ELock; ELog "applying tracing to routes"; EGo; EUnlock] |}.
Proof. run_schedule. reflexivity. Qed.

(** Two schedules, run on any component. *)
Lemma Run_two_failures c ctx e1 e2 :
  tlsActive c →
  Run c ctx [LRun; LRun; LRun; LBg; LServeReturns e1; LRecv; LBg;
             LServeReturns e2] =
  Some {| caller := RunReturned e1;
          bg := Bg149Send e2;
          mu := false;
          done := false;
          srv := Some (createHTTPServer c);
          trace :=
            [ELock; ELog "applying tracing to routes"; EGo; EUnlock;
             ELog ("HTTPS component listening on port " +:+ pretty (httpPort c));
             EListenAndServeTLS (createHTTPServer c) (certFile c) (keyFile c);
             ESend e1; ERunReturned e1;
             ELog ("HTTP component listening on port " +:+ pretty (httpPort c));
             EListenAndServe (createHTTPServer c)] |}.
Proof.
  intros Htls. run_schedule.
  case_bool_decide as Hd; [|by destruct Hd].
  run_schedule. reflexivity.
Qed.

Lemma Run_cancelled_while_serving c ctx r :
  ¬ tlsActive c →
  Run c ctx [LRun; LRun; LRun; LBg; LBg; LCtxDone; LDone; LShutdownReturns r] =
  Some {| caller := RunReturned r;
          bg := Bg149Serving;
          mu := false;
          done := true;
          srv := Some (createHTTPServer c);
          trace :=
            [ELock; ELog "applying tracing to routes"; EGo; EUnlock;
             ELog ("HTTP component listening on port " +:+ pretty (httpPort c));
             EListenAndServe (createHTTPServer c);
             ELog "shutting down component";
             EShutdown (createHTTPServer c) ctx;
             EShutdownReturned r; ERunReturned r] |}.
Proof.
  intros Hn. run_schedule.
  case_bool_decide as Hd; [by destruct Hn|].
  run_schedule. reflexivity.
Qed.

(** C1, the behaviour of the code. For a component with both paths set,
    when [ListenAndServeTLS] returns an error and [Run] receives it, the
    background path goes on from line 145 to line 148, logs the HTTP
    line and calls [ListenAndServe] on the same server. No shutdown was
    asked for; [Run] has already returned the TLS error. *)
Theorem tls_failure_then_plaintext_listen (c : Component) (ctx : Ctx) (e : error) :
  tlsActive c →
  ∃ s,
    Run c ctx [LRun; LRun; LRun; LBg; LServeReturns e; LRecv; LBg] = Some s ∧
    caller s = RunReturned e ∧
    bg s = Bg149Serving ∧
    trace s =
      [ELock; ELog "applying tracing to routes"; EGo; EUnlock;
       ELog ("HTTPS component listening on port " +:+ pretty (httpPort c));
       EListenAndServeTLS (createHTTPServer c) (certFile c) (keyFile c);
       ESend e; ERunReturned e;
       ELog ("HTTP component listening on port " +:+ pretty (httpPort c));
       EListenAndServe (createHTTPServer c)] ∧
    tlsListens (trace s) = [(certFile c, keyFile c)] ∧
    plainListens (trace s) = 1%nat ∧
    shutdowns (trace s) = [].
Proof.
  intros Htls. eexists. split.
  { run_schedule. case_bool_decide as Hd; [|by destruct Hd].
    run_schedule. reflexivity. }
  repeat split.
Qed.

(** Once [Run] has returned, a background path that stands at the send
    of line 149 stays there: no label moves it, and the trace does not
    grow. *)
Lemma step_at_second_send c ctx s l s' e e2 :
  caller s = RunReturned e → bg s = Bg149Send e2 →
  step c ctx s l = Some s' →
  caller s' = RunReturned e ∧ bg s' = Bg149Send e2 ∧ trace s' = trace s.
Proof.
  destruct s as [ca b m d sv tr]. simpl. intros -> ->.
  destruct l; unfold_steps; simpl; intros Hs; try discriminate Hs.
  all: try (destruct sv; discriminate Hs).
  by injection Hs as <-.
Qed.

Lemma exec_at_second_send c ctx ls s s' e e2 :
  caller s = RunReturned e → bg s = Bg149Send e2 →
  exec c ctx s ls = Some s' →
  caller s' = RunReturned e ∧ bg s' = Bg149Send e2 ∧ trace s' = trace s.
Proof.
  revert s. induction ls as [|l ls IH]; simpl; intros s Hc Hb He.
  - by injection He as <-.
  - destruct (step c ctx s l) as [s1|] eqn:Hst; [|done].
    destruct (step_at_second_send _ _ _ _ _ _ _ Hc Hb Hst) as (Hc1 & Hb1 & <-).
    by apply IH.
Qed.

(** C2, the behaviour of the code. For a component with both paths set,
    the background path comes to a second send on [chFail] in one [Run]:
    the error of the TLS listener is sent at line 145 and received by
    [Run], then control falls through, [ListenAndServe] returns its own
    error and the background path stands at the send of line 149. [Run]
    has returned, so this second send never completes: the background path
    stays at it whatever happens next. *)
Theorem tls_component_reaches_second_send (c : Component) (ctx : Ctx) (e1 e2 : error) :
  tlsActive c →
  ∃ s,
    Run c ctx [LRun; LRun; LRun; LBg; LServeReturns e1; LRecv; LBg;
               LServeReturns e2] = Some s ∧
    served [LRun; LRun; LRun; LBg; LServeReturns e1; LRecv; LBg;
            LServeReturns e2] = [e1; e2] ∧
    sends (trace s) = [e1] ∧
    caller s = RunReturned e1 ∧
    bg s = Bg149Send e2 ∧
    ∀ ls' s', exec c ctx s ls' = Some s' →
      caller s' = RunReturned e1 ∧ bg s' = Bg149Send e2 ∧
      sends (trace s') = [e1].
Proof.
  intros Htls. eexists. split; [by apply Run_two_failures|].
  split; [done|]. split; [done|]. split; [done|]. split; [done|].
  intros ls' s' He.
  eapply exec_at_second_send in He as (Hc & Hb & Ht); [|reflexivity..].
  by rewrite Ht.
Qed.

(** C3. At the select of [Run]: when the background path is at a send
    of [e], taking the channel case makes [Run] return [e] at once with no
    shutdown call; when the token has fired, taking the other case calls
    [Shutdown] on the server with that same token, and [Run] returns
    whatever [Shutdown] returns. A [Run] that has returned has done exactly
    one of the two. *)
Theorem Run_returns_failure_or_shutdown (c : Component) (ctx : Ctx) (ls : list Label) (s : State) :
  Run c ctx ls = Some s →
  (caller s = Run133 → ∀ e, bg s = Bg145Send e ∨ bg s = Bg149Send e →
     ∃ s', step c ctx s LRecv = Some s' ∧
       caller s' = RunReturned e ∧
       trace s' = trace s ++ [ESend e; ERunReturned e] ∧
       shutdowns (trace s') = []) ∧
  (caller s = Run133 → done s = true →
     ∃ s', step c ctx s LDone = Some s' ∧
       caller s' = Run136 ∧
       trace s' = trace s ++
         [ELog "shutting down component"; EShutdown (createHTTPServer c) ctx] ∧
       sends (trace s') = []) ∧
  (caller s = Run136 → ∀ r,
     ∃ s', step c ctx s (LShutdownReturns r) = Some s' ∧
       caller s' = RunReturned r ∧
       trace s' = trace s ++ [EShutdownReturned r; ERunReturned r]) ∧
  (∀ e, caller s = RunReturned e →
     runReturns (trace s) = [e] ∧
     ((sends (trace s) = [e] ∧
       shutdowns (trace s) = [] ∧
       shutdownResults (trace s) = []) ∨
      (sends (trace s) = [] ∧
       shutdowns (trace s) = [(createHTTPServer c, ctx)] ∧
       shutdownResults (trace s) = [e])) ∧
     ¬ (sends (trace s) = [e] ∧
        shutdowns (trace s) = [(createHTTPServer c, ctx)])).
Proof.
  intros HR. pose proof (Run_Inv _ _ _ _ HR) as HI.
  destruct s as [ca b m d sv tr]. unfold Inv in HI. simpl in *.
  split; [|split; [|split]].
  - intros -> e Hb. destruct HI as (_ & Hs1 & Hs2 & Hs3 & Hs4).
    unfold step, stepRecv. simpl.
    destruct Hb as [-> | ->]; (eexists; split; [done|]; simpl;
      repeat split; try done;
      unfold shutdowns in *; by rewrite omap_app, Hs2).
  - intros -> ->. destruct HI as (-> & Hs1 & Hs2 & Hs3 & Hs4).
    unfold step, stepDone. simpl. eexists. split; [done|]. simpl.
    repeat split; try done.
    unfold sends in *; by rewrite omap_app, Hs1.
  - intros -> r. unfold step, stepShutdownReturns. simpl.
    eexists. by split.
  - intros e ->. destruct HI as (Hr & HI). repeat split; try done.
    intros [Hs Hd]. destruct HI as [(_ & Hd' & _)|(Hs' & _)]; congruence.
Qed.

(** ** More on the lifecycle *)

Lemma exec_snoc c ctx s ls l :
  exec c ctx s (ls ++ [l]) =
  match exec c ctx s ls with
  | Some s' => step c ctx s' l
  | None => None
  end.
Proof.
  revert s. induction ls as [|l0 ls IH]; intros s; simpl.
  - by destruct (step c ctx s l).
  - destruct (step c ctx s l0); [apply IH|done].
Qed.

Lemma exec_app c ctx s ls1 ls2 :
  exec c ctx s (ls1 ++ ls2) =
  match exec c ctx s ls1 with
  | Some s' => exec c ctx s' ls2
  | None => None
  end.
Proof.
  revert s. induction ls1 as [|l0 ls1 IH]; intros s; simpl; [done|].
  destruct (step c ctx s l0); [apply IH|done].
Qed.

(** Induction over the feasible schedules of [Run], one label at a time. *)
Lemma Run_ind (P : list Label → State → Prop) c ctx :
  P [] initState →
  (∀ ls s l s',
     Run c ctx ls = Some s → P ls s → step c ctx s l = Some s' →
     P (ls ++ [l]) s') →
  ∀ ls s, Run c ctx ls = Some s → P ls s.
Proof.
  intros H0 Hstep ls. induction ls as [|l ls IH] using rev_ind; intros s HR.
  - injection HR as <-. exact H0.
  - unfold Run in HR. rewrite exec_snoc in HR.
    destruct (exec c ctx initState ls) as [s0|] eqn:He; [|done].
    eapply Hstep; [exact He|by apply IH|exact HR].
Qed.

Lemma sends_app tr evs : sends (tr ++ evs) = sends tr ++ sends evs.
Proof. apply omap_app. Qed.
Lemma shutdowns_app tr evs : shutdowns (tr ++ evs) = shutdowns tr ++ shutdowns evs.
Proof. apply omap_app. Qed.
Lemma runReturns_app tr evs : runReturns (tr ++ evs) = runReturns tr ++ runReturns evs.
Proof. apply omap_app. Qed.
Lemma tlsListens_app tr evs : tlsListens (tr ++ evs) = tlsListens tr ++ tlsListens evs.
Proof. apply omap_app. Qed.
Lemma plainListens_app tr evs :
  plainListens (tr ++ evs) = (plainListens tr + plainListens evs)%nat.
Proof. unfold plainListens. by rewrite omap_app, length_app. Qed.
Lemma servers_app tr evs : servers (tr ++ evs) = servers tr ++ servers evs.
Proof. apply omap_app. Qed.
Lemma served_app ls1 ls2 : served (ls1 ++ ls2) = served ls1 ++ served ls2.
Proof. apply omap_app. Qed.

Ltac split_projections :=
  rewrite ?sends_app, ?shutdowns_app, ?runReturns_app, ?tlsListens_app,
    ?plainListens_app, ?servers_app, ?served_app;
  simpl; rewrite ?app_nil_r.

Ltac unfold_steps_in H :=
  unfold step, stepRun, stepBg, stepServeReturns, stepRecv, stepDone,
    stepShutdownReturns, emit, set_caller, set_bg, set_mu, set_done, set_srv
    in H; simpl in H.

Lemma Run_CallerInv c ctx ls s : Run c ctx ls = Some s → CallerInv c s.
Proof.
  revert ls s. apply (Run_ind (λ _ s, CallerInv c s)).
  { by repeat split. }
  intros _ [ca b m d sv tr] l s' _ (Hmu & Hbg & Hsrv) Hs. simpl in *.
  unfold CallerInv. destruct l; unfold_steps_in Hs.
  - destruct ca; try discriminate.
    + destruct m; [discriminate|]. injection Hs as <-. simpl.
      repeat split; try done. all: by apply Hbg.
    + injection Hs as <-. simpl. repeat split; done.
    + injection Hs as <-. simpl. repeat split; try done; apply Hbg.
  - destruct b, sv as [sv|]; try discriminate.
    + destruct (bool_decide _); injection Hs as <-; simpl;
        (split; [done|]; split; [|done]);
        (split; [done|]); intros Hsp; apply Hbg in Hsp; discriminate.
    + injection Hs as <-. simpl. split; [done|]. split; [|done].
      split; [done|]. intros Hsp; apply Hbg in Hsp; discriminate.
  - destruct b; try discriminate; injection Hs as <-; simpl;
      (split; [done|]; split; [|done]);
      (split; [done|]); intros Hsp; apply Hbg in Hsp; discriminate.
  - injection Hs as <-. simpl. done.
  - destruct ca; try discriminate.
    destruct b; try discriminate; injection Hs as <-; simpl;
      repeat split; done.
  - destruct ca, sv as [sv|]; try discriminate.
    destruct d; [|discriminate]. injection Hs as <-. simpl. done.
  - destruct ca; try discriminate. injection Hs as <-. simpl. done.
Qed.

Lemma BgInv_ext c ls ls' s s' :
  bg s' = bg s →
  served ls' = served ls →
  tlsListens (trace s') = tlsListens (trace s) →
  plainListens (trace s') = plainListens (trace s) →
  sends (trace s') = sends (trace s) →
  BgInv c ls s → BgInv c ls' s'.
Proof.
  intros Hb Hsv Ht Hp Hs. unfold BgInv. by rewrite Hb, Hsv, Ht, Hp, Hs.
Qed.

Ltac silent_step HB :=
  eapply BgInv_ext; [..|exact HB]; simpl; split_projections; simpl;
  rewrite ?app_nil_r, ?Nat.add_0_r; reflexivity.

Lemma Run_BgInv c ctx ls s : Run c ctx ls = Some s → BgInv c ls s.
Proof.
  revert ls s. apply (Run_ind (BgInv c)).
  { by repeat split. }
  intros ls s l s' HR HB Hs.
  pose proof (Run_Inv _ _ _ _ HR) as HI.
  pose proof (Run_CallerInv _ _ _ _ HR) as (_ & Hbg & _).
  destruct s as [ca b m d sv tr]. simpl in *.
  destruct l; unfold_steps_in Hs.
  - (* the caller's setup *)
    destruct ca; try discriminate.
    + destruct m; [discriminate|]. injection Hs as <-. silent_step HB.
    + injection Hs as <-. assert (b = BgNotStarted) as -> by (by apply Hbg).
      unfold BgInv in *. simpl in *. split_projections.
      destruct HB as (-> & -> & -> & ->). done.
    + injection Hs as <-. silent_step HB.
  - (* the background path moves on *)
    destruct b, sv as [sv|]; try discriminate.
    + case_bool_decide as Hd; injection Hs as <-;
        unfold BgInv in *; simpl in *; split_projections;
        destruct HB as (-> & -> & -> & ->); simpl.
      * done.
      * split; [done|]. right. done.
    + injection Hs as <-. unfold BgInv in *. simpl in *. split_projections.
      destruct HB as (-> & HB). split; [done|]. exact HB.
  - (* a listen call returns *)
    destruct b; try discriminate; injection Hs as <-;
      unfold BgInv in *; simpl in *; split_projections.
    + destruct HB as (? & -> & ? & ? & ?). done.
    + destruct HB as (? & [(? & ? & e1 & -> & ?)|(? & ? & -> & ?)]).
      * split; [done|]. left. eauto.
      * split; [done|]. right. done.
  - (* the token fires *)
    injection Hs as <-. silent_step HB.
  - (* the receive of the select *)
    destruct ca; try discriminate.
    destruct HI as (_ & Hs0 & _). simpl in Hs0.
    destruct b; try discriminate; injection Hs as <-;
      unfold BgInv in *; simpl in *; split_projections; rewrite Hs0.
    + destruct HB as (? & ? & ? & -> & _). split; [done|]. left. eauto.
    + destruct HB as (? & [(_ & _ & e1 & _ & Hs1)|(? & ? & ? & _)]).
      * rewrite Hs0 in Hs1. discriminate.
      * rewrite Nat.add_0_r. eauto 6.
  - (* the other case of the select *)
    destruct ca, sv as [sv|]; try discriminate.
    destruct d; [|discriminate]. injection Hs as <-. silent_step HB.
  - (* Shutdown returns *)
    destruct ca; try discriminate. injection Hs as <-. silent_step HB.
Qed.

Lemma Run_shutdown_needs_done c ctx ls s :
  Run c ctx ls = Some s → shutdowns (trace s) = [] ∨ done s = true.
Proof.
  revert ls s. apply (Run_ind (λ _ s, shutdowns (trace s) = [] ∨ done s = true)).
  { by left. }
  intros _ [ca b m d sv tr] l s' _ HP Hs. simpl in *.
  destruct l; unfold_steps_in Hs.
  - destruct ca; try discriminate.
    + destruct m; [discriminate|]. injection Hs as <-. simpl.
      split_projections. exact HP.
    + injection Hs as <-. simpl. split_projections. exact HP.
    + injection Hs as <-. simpl. split_projections. exact HP.
  - destruct b, sv as [sv|]; try discriminate.
    + destruct (bool_decide _); injection Hs as <-; simpl;
        split_projections; exact HP.
    + injection Hs as <-. simpl. split_projections. exact HP.
  - destruct b; try discriminate; injection Hs as <-; exact HP.
  - injection Hs as <-. by right.
  - destruct ca; try discriminate.
    destruct b; try discriminate; injection Hs as <-; simpl;
      split_projections; exact HP.
  - destruct ca, sv as [sv|]; try discriminate.
    destruct d; [|discriminate]. injection Hs as <-. by right.
  - destruct ca; try discriminate. injection Hs as <-. simpl.
    split_projections. exact HP.
Qed.

Lemma Run_servers c ctx ls s :
  Run c ctx ls = Some s →
  Forall (λ sv, sv = createHTTPServer c) (servers (trace s)).
Proof.
  revert ls s.
  apply (Run_ind (λ _ s, Forall (λ sv, sv = createHTTPServer c) (servers (trace s)))).
  { constructor. }
  intros ls s l s' HR HP Hs.
  pose proof (Run_CallerInv _ _ _ _ HR) as (_ & _ & Hsrv).
  destruct s as [ca b m d sv tr]. simpl in *.
  assert (∀ sv0, sv = Some sv0 → sv0 = createHTTPServer c) as Hsv.
  { intros sv0 ->. destruct (spawned ca); congruence. }
  destruct l; unfold_steps_in Hs.
  - destruct ca; try discriminate.
    + destruct m; [discriminate|]. injection Hs as <-. simpl.
      split_projections. exact HP.
    + injection Hs as <-. simpl. split_projections. exact HP.
    + injection Hs as <-. simpl. split_projections. exact HP.
  - destruct b, sv as [sv|]; try discriminate.
    + destruct (bool_decide _); injection Hs as <-; simpl;
        split_projections; [|exact HP].
      apply Forall_app. split; [exact HP|]. repeat constructor. by apply Hsv.
    + injection Hs as <-. simpl. split_projections.
      apply Forall_app. split; [exact HP|]. repeat constructor. by apply Hsv.
  - destruct b; try discriminate; injection Hs as <-; exact HP.
  - injection Hs as <-. exact HP.
  - destruct ca; try discriminate.
    destruct b; try discriminate; injection Hs as <-; simpl;
      split_projections; exact HP.
  - destruct ca, sv as [sv|]; try discriminate.
    destruct d; [|discriminate]. injection Hs as <-. simpl.
    split_projections.
    apply Forall_app. split; [exact HP|]. repeat constructor. by apply Hsv.
  - destruct ca; try discriminate. injection Hs as <-. simpl.
    split_projections. exact HP.
Qed.

(** A returned [Run] takes no further step; what the background path
    still does passes nothing through the channel. *)
Lemma step_after_return c ctx s l s' e :
  caller s = RunReturned e → step c ctx s l = Some s' →
  caller s' = RunReturned e ∧ mu s' = mu s ∧
  sends (trace s') = sends (trace s) ∧
  shutdowns (trace s') = shutdowns (trace s) ∧
  shutdownResults (trace s') = shutdownResults (trace s) ∧
  runReturns (trace s') = runReturns (trace s).
Proof.
  destruct s as [ca b m d sv tr]. simpl. intros -> Hs.
  destruct l; unfold_steps_in Hs; try discriminate.
  - destruct b, sv as [sv|]; try discriminate.
    + destruct (bool_decide _); injection Hs as <-; simpl;
        unfold shutdownResults; split_projections; rewrite ?omap_app;
        simpl; rewrite ?app_nil_r; done.
    + injection Hs as <-. simpl. unfold shutdownResults. split_projections.
      rewrite ?omap_app. simpl. rewrite ?app_nil_r. done.
  - destruct b; try discriminate; injection Hs as <-; done.
  - injection Hs as <-. done.
Qed.

Lemma exec_after_return c ctx ls s s' e :
  caller s = RunReturned e → exec c ctx s ls = Some s' →
  caller s' = RunReturned e ∧ mu s' = mu s ∧
  sends (trace s') = sends (trace s) ∧
  shutdowns (trace s') = shutdowns (trace s) ∧
  shutdownResults (trace s') = shutdownResults (trace s) ∧
  runReturns (trace s') = runReturns (trace s).
Proof.
  revert s. induction ls as [|l ls IH]; simpl; intros s Hc He.
  - injection He as <-. done.
  - destruct (step c ctx s l) as [s1|] eqn:Hst; [|done].
    destruct (step_after_return _ _ _ _ _ _ Hc Hst)
      as (Hc1 & <- & <- & <- & <- & <-).
    by apply IH.
Qed.

Lemma plaintext_component_never_listens_tls_aux c ctx ls s :
  ¬ tlsActive c → Run c ctx ls = Some s →
  tlsListens (trace s) = [] ∧ (plainListens (trace s) ≤ 1)%nat ∧
  (length (served ls) ≤ 1)%nat.
Proof.
  intros Hn HR. pose proof (Run_BgInv _ _ _ _ HR) as HB. unfold BgInv in HB.
  destruct (bg s).
  1,2: destruct HB as (-> & -> & -> & _); simpl; auto.
  1,2: by destruct HB as (Ht & _).
  1,2,3: destruct HB as (-> & [(Ht & _)|(_ & -> & -> & _)]);
    [done|simpl; auto].
  destruct HB as (_ & -> & -> & e & -> & _). simpl. auto.
Qed.

Lemma tls_component_listens_tls_first_aux c ctx ls s :
  tlsActive c → Run c ctx ls = Some s →
  tlsListens (trace s) = [] ∨
  tlsListens (trace s) = [(certFile c, keyFile c)].
Proof.
  intros Ht HR. pose proof (Run_BgInv _ _ _ _ HR) as HB. unfold BgInv in HB.
  destruct (bg s).
  1,2: destruct HB as (_ & -> & _); auto.
  1,2: destruct HB as (_ & _ & -> & _); auto.
  1,2,3: destruct HB as (_ & [(_ & -> & _)|(Hn & _)]); [auto|done].
  by destruct HB as (Hn & _).
Qed.

(** X2. A component without both TLS paths never calls
    [ListenAndServeTLS]; it calls [ListenAndServe] at most once. *)
Theorem plaintext_component_never_listens_tls (c : Component) (ctx : Ctx) (ls : list Label) (s : State) :
  ¬ tlsActive c →
  Run c ctx ls = Some s →
  tlsListens (trace s) = [] ∧
  (plainListens (trace s) ≤ 1)%nat ∧
  (length (served ls) ≤ 1)%nat.
Proof.
  intros Hn HR. exact (plaintext_component_never_listens_tls_aux c ctx ls s Hn HR).
Qed.

(** X3. A component with both TLS paths calls [ListenAndServeTLS] first,
    once, with its two paths. It calls [ListenAndServe] only after the
    error of the TLS listener has passed the channel, that is after [Run]
    has returned that error, and at most once. *)
Theorem tls_component_listens_tls_first (c : Component) (ctx : Ctx) (ls : list Label) (s : State) :
  tlsActive c →
  Run c ctx ls = Some s →
  (tlsListens (trace s) = [] ∨
   tlsListens (trace s) = [(certFile c, keyFile c)]) ∧
  (plainListens (trace s) ≤ length (sends (trace s)))%nat ∧
  (plainListens (trace s) ≤ 1)%nat ∧
  ((0 < plainListens (trace s))%nat →
     tlsListens (trace s) = [(certFile c, keyFile c)] ∧
     ∃ e, head (served ls) = Some e ∧ sends (trace s) = [e] ∧
          caller s = RunReturned e).
Proof.
  intros Ht HR. pose proof (Run_BgInv _ _ _ _ HR) as HB.
  pose proof (Run_Inv _ _ _ _ HR) as HI.
  assert (∀ e, sends (trace s) = [e] → caller s = RunReturned e) as Hret.
  { intros e He. unfold Inv, quiet in HI. destruct (caller s).
    1,2: destruct HI as (Hs & _); congruence.
    1,2: destruct HI as (_ & Hs & _); congruence.
    - destruct HI as (_ & Hs & _); congruence.
    - destruct HI as (_ & [(Hs & _)|(Hs & _)]); congruence. }
  unfold BgInv in HB. destruct (bg s).
  1,2: destruct HB as (_ & -> & -> & ->); simpl;
    (split; [auto|]; split; [auto|]; split; [auto|]);
    intros Hlt; by apply Nat.lt_irrefl in Hlt.
  1,2: destruct HB as (_ & _ & -> & -> & ->); simpl;
    (split; [auto|]; split; [auto|]; split; [auto|]);
    intros Hlt; by apply Nat.lt_irrefl in Hlt.
  - destruct HB as (-> & [(_ & -> & e & _ & ->)|(Hn & _)]); [|done].
    simpl. (split; [auto|]; split; [auto|]; split; [auto|]).
    intros Hlt; by apply Nat.lt_irrefl in Hlt.
  - destruct HB as (-> & [(_ & -> & e & Hsv & Hs)|(Hn & _)]); [|done].
    rewrite Hs, Hsv. simpl. (split; [auto|]; split; [auto|]; split; [auto|]).
    intros _. split; [done|]. exists e. auto.
  - destruct HB as (-> & [(_ & -> & e1 & Hsv & Hs)|(Hn & _)]); [|done].
    rewrite Hs, Hsv. simpl. (split; [auto|]; split; [auto|]; split; [auto|]).
    intros _. split; [done|]. exists e1. auto.
  - by destruct HB as (Hn & _).
Qed.

Lemma Run_sent_is_returned c ctx ls s e :
  Run c ctx ls = Some s → sends (trace s) = [e] →
  caller s = RunReturned e ∧ shutdowns (trace s) = [] ∧
  runReturns (trace s) = [e].
Proof.
  intros HR He. pose proof (Run_Inv _ _ _ _ HR) as HI.
  unfold Inv, quiet in HI. destruct (caller s).
  1,2: destruct HI as (Hs & _); congruence.
  1,2: destruct HI as (_ & Hs & _); congruence.
  - destruct HI as (_ & Hs & _); congruence.
  - destruct HI as (Hr & [(Hs & Hd & _)|(Hs & _)]); [|congruence].
    assert (e0 = e) as -> by congruence. done.
Qed.

(** X4. The background path runs to its end only in one way: the
    component has no TLS, its one [ListenAndServe] call returned an error,
    and [Run] received that error and returned it without a shutdown. In
    every other run (a shutdown, or any component with TLS) the background
    path never finishes. *)
Theorem background_path_ends_only_after_plain_failure (c : Component) (ctx : Ctx) (ls : list Label) (s : State) :
  Run c ctx ls = Some s →
  bg s = BgEnd →
  ¬ tlsActive c ∧
  ∃ e, served ls = [e] ∧
       caller s = RunReturned e ∧
       sends (trace s) = [e] ∧
       shutdowns (trace s) = [] ∧
       plainListens (trace s) = 1%nat.
Proof.
  intros HR Hb. pose proof (Run_BgInv _ _ _ _ HR) as HB.
  unfold BgInv in HB. rewrite Hb in HB.
  destruct HB as (Hn & Hp & _ & e & Hsv & Hs).
  destruct (Run_sent_is_returned _ _ _ _ _ HR Hs) as (Hc & Hd & _).
  split; [done|]. exists e. done.
Qed.

(** X5. The error [Run] receives from the channel is the one the first
    listen call returned; the listen calls return at most twice. *)
Theorem Run_receives_first_listen_error (c : Component) (ctx : Ctx) (ls : list Label) (s : State) :
  Run c ctx ls = Some s →
  (length (served ls) ≤ 2)%nat ∧
  ∀ e, e ∈ sends (trace s) →
    head (served ls) = Some e ∧ caller s = RunReturned e.
Proof.
  intros HR. pose proof (Run_BgInv _ _ _ _ HR) as HB.
  assert (∀ e0 e, sends (trace s) = [e0] → e ∈ [e0] → head (served ls) = Some e0 →
                  head (served ls) = Some e ∧ caller s = RunReturned e) as Hone.
  { intros e0 e Hs He Hh. apply list_elem_of_singleton in He as ->.
    split; [done|]. by destruct (Run_sent_is_returned _ _ _ _ _ HR Hs). }
  assert (sends (trace s) = [] →
          ∀ x, x ∈ sends (trace s) →
               head (served ls) = Some x ∧ caller s = RunReturned x) as Hnone.
  { intros -> x Hx. by apply elem_of_nil in Hx. }
  assert (∀ e0, sends (trace s) = [e0] → head (served ls) = Some e0 →
          ∀ x, x ∈ sends (trace s) →
               head (served ls) = Some x ∧ caller s = RunReturned x) as Hsome.
  { intros e0 Hs Hh x Hx. by apply (Hone e0 x Hs); [rewrite <- Hs|]. }
  unfold BgInv in HB.
  destruct (bg s) as [ | | | e1 | | | e2 | ].
  - destruct HB as (Hsv & _ & _ & Hs). split; [rewrite Hsv; simpl; lia|exact (Hnone Hs)].
  - destruct HB as (Hsv & _ & _ & Hs). split; [rewrite Hsv; simpl; lia|exact (Hnone Hs)].
  - destruct HB as (_ & Hsv & _ & _ & Hs). split; [rewrite Hsv; simpl; lia|exact (Hnone Hs)].
  - destruct HB as (_ & Hsv & _ & _ & Hs). split; [rewrite Hsv; simpl; lia|exact (Hnone Hs)].
  - destruct HB as (_ & [(_ & _ & e0 & Hsv & Hs)|(_ & _ & Hsv & Hs)]).
    + split; [rewrite Hsv; simpl; lia|]. apply (Hsome e0 Hs). by rewrite Hsv.
    + split; [rewrite Hsv; simpl; lia|exact (Hnone Hs)].
  - destruct HB as (_ & [(_ & _ & e0 & Hsv & Hs)|(_ & _ & Hsv & Hs)]).
    + split; [rewrite Hsv; simpl; lia|]. apply (Hsome e0 Hs). by rewrite Hsv.
    + split; [rewrite Hsv; simpl; lia|exact (Hnone Hs)].
  - destruct HB as (_ & [(_ & _ & e0 & Hsv & Hs)|(_ & _ & Hsv & Hs)]).
    + split; [rewrite Hsv; simpl; lia|]. apply (Hsome e0 Hs). by rewrite Hsv.
    + split; [rewrite Hsv; simpl; lia|exact (Hnone Hs)].
  - destruct HB as (_ & _ & _ & e0 & Hsv & Hs).
    split; [rewrite Hsv; simpl; lia|]. apply (Hsome e0 Hs). by rewrite Hsv.
Qed.

(** X6. Once [Run] has returned, its result stands: however the schedule
    goes on, the caller's path does nothing more, nothing further passes
    the channel, no shutdown is started and the mutex stays free. *)
Theorem Run_return_is_final (c : Component) (ctx : Ctx) (ls ls' : list Label) (s s' : State) (e : error) :
  Run c ctx ls = Some s →
  caller s = RunReturned e →
  Run c ctx (ls ++ ls') = Some s' →
  caller s' = RunReturned e ∧
  runReturns (trace s') = [e] ∧
  sends (trace s') = sends (trace s) ∧
  shutdowns (trace s') = shutdowns (trace s) ∧
  shutdownResults (trace s') = shutdownResults (trace s) ∧
  mu s' = false.
Proof.
  intros HR Hc HR'. unfold Run in HR'. rewrite exec_app in HR'.
  unfold Run in HR. rewrite HR in HR'.
  destruct (exec_after_return _ _ _ _ _ _ Hc HR')
    as (Hc' & Hmu & Hs & Hd & Hsr & Hrr).
  pose proof (Run_Inv _ _ _ _ HR) as HI. unfold Inv in HI. rewrite Hc in HI.
  destruct HI as (Hr & _).
  destruct (Run_CallerInv _ _ _ _ HR) as (Hm & _). rewrite Hc in Hm.
  simpl in Hm. repeat split; try done; congruence.
Qed.

(** X7. [Shutdown] is never called before the caller's token has fired. *)
Theorem Shutdown_only_after_cancellation (c : Component) (ctx : Ctx) (ls : list Label) (s : State) :
  Run c ctx ls = Some s →
  (shutdowns (trace s) ≠ [] → done s = true ∧ LCtxDone ∈ ls) ∧
  (LCtxDone ∉ ls → done s = false ∧ shutdowns (trace s) = []).
Proof.
  intros HR.
  assert (done s = true → LCtxDone ∈ ls) as Hdone.
  { revert ls s HR.
    apply (Run_ind (λ ls s, done s = true → LCtxDone ∈ ls)); [done|].
    intros ls [ca b m d sv tr] l s' _ HP Hs Hd. simpl in *.
    rewrite elem_of_app, list_elem_of_singleton.
    destruct l; unfold_steps_in Hs; auto; left; apply HP.
    - destruct ca; try discriminate.
      + destruct m; [discriminate|]. by injection Hs as <-.
      + by injection Hs as <-.
      + by injection Hs as <-.
    - destruct b, sv as [sv|]; try discriminate.
      + by destruct (bool_decide _); injection Hs as <-.
      + by injection Hs as <-.
    - by destruct b; try discriminate; injection Hs as <-.
    - destruct ca; try discriminate.
      by destruct b; try discriminate; injection Hs as <-.
    - destruct ca, sv as [sv|]; try discriminate.
      destruct d; [|discriminate]. by injection Hs as <-.
    - destruct ca; try discriminate. by injection Hs as <-. }
  destruct (Run_shutdown_needs_done _ _ _ _ HR) as [Hd|Hd].
  - split; [done|]. intros Hn. split; [|done].
    destruct (done s) eqn:E; [|done]. destruct (Hn (Hdone eq_refl)).
  - split; [auto|]. intros Hn. destruct (Hn (Hdone Hd)).
Qed.



(** ** More on construction and the info map *)

Lemma applyOptions_keeps_info oo c c' :
  Forall keeps_info oo → applyOptions oo c = (c', None) → info c' = info c.
Proof.
  intros Hk. revert c. induction Hk as [|o oo Ho _ IH]; intros c; simpl.
  - by intros [= ->].
  - specialize (Ho c). destruct (o c) as [c1 [e|]]; [done|].
    intros H. rewrite (IH _ H). exact Ho.
Qed.

Lemma applyOptions_keeps_tls oo c c' :
  Forall keeps_tls oo → applyOptions oo c = (c', None) →
  certFile c' = certFile c ∧ keyFile c' = keyFile c.
Proof.
  intros Hk. revert c. induction Hk as [|o oo Ho _ IH]; intros c; simpl.
  - by intros [= ->].
  - specialize (Ho c). destruct (o c) as [c1 [e|]]; [done|].
    intros H. destruct (IH _ H) as [-> ->]. exact Ho.
Qed.

Lemma createInfo_lookup_type c :
  info (createInfo c) !! "type" =
  Some (VString (if decide (tlsActive c) then "https" else "http")).
Proof.
  destruct (decide (tlsActive c)) as [Hy|Hn].
  - by destruct (createInfo_lookup_tls c Hy) as (-> & _).
  - by destruct (createInfo_lookup_plain c Hn) as (-> & _).
Qed.

Lemma createInfo_set_info c :
  createInfo c = set_info c (info (createInfo c)).
Proof. done. Qed.

(** X9. Running [createInfo] a second time changes nothing. *)
Theorem createInfo_idempotent (c : Component) :
  createInfo (createInfo c) = createInfo c.
Proof.
  assert (info (createInfo (createInfo c)) = info (createInfo c)) as Hm;
    [|by rewrite (createInfo_set_info (createInfo c)), Hm].
  apply map_eq. intros k.
  assert (tlsActive (createInfo c) ↔ tlsActive c) as Ht by done.
  destruct (decide (k ∈ infoKeys)) as [Hin|Hout];
    [|by rewrite createInfo_lookup_other].
  destruct (createInfo_lookup_common (createInfo c)) as (Hp & Hr & Hw & Hi).
  destruct (createInfo_lookup_common c) as (Hp' & Hr' & Hw' & Hi').
  unfold infoKeys in Hin. rewrite !elem_of_cons in Hin.
  destruct Hin as [->|[->|[->|[->|[->|[->|[->|Hin]]]]]]].
  - rewrite (createInfo_lookup_type (createInfo c)), (createInfo_lookup_type c).
    destruct (decide (tlsActive (createInfo c))) as [H1|H1],
             (decide (tlsActive c)) as [H2|H2]; done.
  - by rewrite Hp, Hp'.
  - by rewrite Hr, Hr'.
  - by rewrite Hw, Hw'.
  - by rewrite Hi, Hi'.
  - destruct (decide (tlsActive c)) as [Hy|Hn].
    + destruct (createInfo_lookup_tls _ (proj2 Ht Hy)) as (_ & -> & _).
      by destruct (createInfo_lookup_tls c Hy) as (_ & -> & _).
    + by destruct (createInfo_lookup_plain (createInfo c) (λ H, Hn (proj1 Ht H)))
        as (_ & -> & _).
  - destruct (decide (tlsActive c)) as [Hy|Hn].
    + destruct (createInfo_lookup_tls _ (proj2 Ht Hy)) as (_ & _ & ->).
      by destruct (createInfo_lookup_tls c Hy) as (_ & _ & ->).
    + by destruct (createInfo_lookup_plain (createInfo c) (λ H, Hn (proj1 Ht H)))
        as (_ & _ & ->).
  - by apply elem_of_nil in Hin.
Qed.

(** The keys [createInfo] assigns without TLS. *)
Lemma createInfo_keys (c : Component) (k : string) :
  info c = ∅ →
  is_Some (info (createInfo c) !! k) ↔
  k ∈ (if decide (tlsActive c) then infoKeys
       else ["type"; "port"; "read-timeout"; "write-timeout"; "idle-timeout"]).
Proof.
  intros He.
  destruct (createInfo_lookup_common c) as (Hp & Hr & Hw & Hi).
  pose proof (createInfo_lookup_type c) as Hty.
  destruct (decide (k ∈ infoKeys)) as [Hin|Hout].
  - unfold infoKeys in Hin. rewrite !elem_of_cons in Hin.
    destruct (decide (tlsActive c)) as [Hy|Hn].
    + destruct (createInfo_lookup_tls c Hy) as (_ & Hk & Hc).
      split; [intros _|intros _].
      * unfold infoKeys. rewrite !elem_of_cons. exact Hin.
      * destruct Hin as [->|[->|[->|[->|[->|[->|[->|Hin]]]]]]]; eauto;
          by apply elem_of_nil in Hin.
    + destruct (createInfo_lookup_plain c Hn) as (_ & Hk & Hc).
      rewrite He, lookup_empty in Hk, Hc. rewrite !elem_of_cons.
      destruct Hin as [->|[->|[->|[->|[->|[->|[->|Hin]]]]]]].
      1-5: split; eauto 8.
      1,2: split;
        [ intros [v Hv]; congruence
        | intros [H|[H|[H|[H|[H|H]]]]]; try discriminate H;
          by apply elem_of_nil in H ].
      by apply elem_of_nil in Hin.
  - rewrite createInfo_lookup_other, He, lookup_empty by done. split.
    + intros [v Hv]. discriminate.
    + intros Hk. destruct Hout. destruct (decide (tlsActive c)); [done|].
      unfold infoKeys. rewrite !elem_of_cons in Hk |- *.
      destruct Hk as [H|[H|[H|[H|[H|H]]]]]; auto 8.
      by apply elem_of_nil in H.
Qed.

(** X10. When no option writes to the info map, the map of the
    component [New] returns has exactly the five base keys, and with TLS
    the two path keys as well; no other key. *)
Theorem New_info_exact_keys (oo : list OptionFunc) (c : Component) (k : string) :
  Forall keeps_info oo →
  New oo = (Some c, None) →
  is_Some (info c !! k) ↔
  k ∈ (if decide (tlsActive c) then infoKeys
       else ["type"; "port"; "read-timeout"; "write-timeout"; "idle-timeout"]).
Proof.
  intros Hk HN. destruct (New_inv _ _ _ HN) as (_ & c' & Hoo & ->).
  apply (createInfo_keys (appendBuiltins c')).
  change (info (appendBuiltins c')) with (info c').
  by rewrite (applyOptions_keeps_info _ _ _ Hk Hoo).
Qed.

(** X11. The info map tells the truth about the listener: a component
    built by [New] whose info says ["http"] never calls
    [ListenAndServeTLS], and whenever [ListenAndServeTLS] is called, info
    says ["https"] and its [cert-file] and [key-file] are the two paths of
    the call. *)
Theorem info_agrees_with_listener (oo : list OptionFunc) (c : Component) (ctx : Ctx) (ls : list Label) (s : State) :
  New oo = (Some c, None) →
  Run c ctx ls = Some s →
  (info c !! "type" = Some (VString "http") → tlsListens (trace s) = []) ∧
  (∀ cf kf, (cf, kf) ∈ tlsListens (trace s) →
     info c !! "type" = Some (VString "https") ∧
     info c !! "cert-file" = Some (VString cf) ∧
     info c !! "key-file" = Some (VString kf)).
Proof.
  intros HN HR. destruct (New_inv _ _ _ HN) as (_ & c' & Hoo & Hc).
  assert (info c !! "type" =
          Some (VString (if decide (tlsActive c) then "https" else "http"))) as Hty.
  { rewrite Hc. apply (createInfo_lookup_type (appendBuiltins c')). }
  destruct (decide (tlsActive c)) as [Hy|Hn].
  - split; [rewrite Hty; discriminate|].
    intros cf kf Hin.
    destruct (tls_component_listens_tls_first_aux c ctx ls s Hy HR) as [Ht|Ht];
      rewrite Ht in Hin; [by apply elem_of_nil in Hin|].
    apply list_elem_of_singleton in Hin. injection Hin as -> ->.
    split; [done|]. rewrite Hc in Hy |- *.
    by destruct (createInfo_lookup_tls (appendBuiltins c') Hy) as (_ & -> & ->).
  - assert (tlsListens (trace s) = []) as Ht.
    { by destruct (plaintext_component_never_listens_tls_aux c ctx ls s Hn HR). }
    split; [done|]. intros cf kf Hin. rewrite Ht in Hin.
    by apply elem_of_nil in Hin.
Qed.

(** X12. The info map tells the truth about the server: for a component
    built by [New], every call of one [Run] into [net/http] is on a server
    whose address is [":"] followed by the port info reports, whose read and
    write timeouts are the ones info reports, and whose idle timeout is the
    fixed 120 seconds info reports. *)
Theorem info_agrees_with_server (oo : list OptionFunc) (c : Component) (ctx : Ctx) (ls : list Label) (s : State) :
  New oo = (Some c, None) →
  Run c ctx ls = Some s →
  ∃ p r w,
    info c !! "port" = Some (VInt p) ∧
    info c !! "read-timeout" = Some (VString (Duration_String r)) ∧
    info c !! "write-timeout" = Some (VString (Duration_String w)) ∧
    info c !! "idle-timeout" = Some (VString (Duration_String (120 * Const.Second)%Z)) ∧
    Forall (λ sv, Addr sv = ":" +:+ pretty p ∧
                  ReadTimeout sv = r ∧ WriteTimeout sv = w ∧
                  IdleTimeout sv = (120 * Const.Second)%Z)
           (servers (trace s)).
Proof.
  intros HN HR. destruct (New_inv _ _ _ HN) as (_ & c' & Hoo & Hc).
  exists (httpPort c), (httpReadTimeout c), (httpWriteTimeout c).
  assert (info c !! "port" = Some (VInt (httpPort c)) ∧
          info c !! "read-timeout" = Some (VString (Duration_String (httpReadTimeout c))) ∧
          info c !! "write-timeout" = Some (VString (Duration_String (httpWriteTimeout c))) ∧
          info c !! "idle-timeout" = Some (VString (Duration_String Const.httpIdleTimeout)))
    as (Hp & Hr & Hw & Hi).
  { rewrite Hc. apply (createInfo_lookup_common (appendBuiltins c')). }
  repeat split; try done.
  eapply Forall_impl; [by eapply Run_servers|].
  intros sv ->. done.
Qed.

(** X13. Plaintext is the default: when no option sets the TLS paths,
    the component [New] returns reports ["http"], and no schedule of its
    [Run] ever calls [ListenAndServeTLS]. *)
Theorem New_plaintext_by_default (oo : list OptionFunc) (c : Component) :
  Forall keeps_tls oo →
  New oo = (Some c, None) →
  certFile c = "" ∧ keyFile c = "" ∧
  info c !! "type" = Some (VString "http") ∧
  ∀ ctx ls s, Run c ctx ls = Some s → tlsListens (trace s) = [].
Proof.
  intros Hk HN. destruct (New_inv _ _ _ HN) as (_ & c' & Hoo & Hc).
  destruct (applyOptions_keeps_tls _ _ _ Hk Hoo) as [Hcf Hkf].
  assert (certFile c = "") as Hc1 by (by rewrite Hc).
  assert (keyFile c = "") as Hc2 by (by rewrite Hc).
  assert (¬ tlsActive c) as Hn by (intros [H1 _]; by apply H1).
  repeat split; try done.
  - rewrite Hc in Hn |- *.
    by destruct (createInfo_lookup_plain (appendBuiltins c') Hn) as (-> & _).
  - intros ctx ls s HR.
    by destruct (plaintext_component_never_listens_tls_aux c ctx ls s Hn HR).
Qed.

Lemma Run_plain_failure c ctx e :
  ¬ tlsActive c →
  Run c ctx [LRun; LRun; LRun; LBg; LBg; LServeReturns e; LRecv] =
  Some {| caller := RunReturned e;
          bg := BgEnd;
          mu := false;
          done := false;
          srv := Some (createHTTPServer c);
          trace :=
            [ELock; ELog "applying tracing to routes"; EGo; EUnlock;
             ELog ("HTTP component listening on port " +:+ pretty (httpPort c));
             EListenAndServe (createHTTPServer c);
             ESend e; ERunReturned e] |}.
Proof.
  intros Hn. run_schedule.
  case_bool_decide as Hd; [by destruct Hn|].
  run_schedule. reflexivity.
Qed.

Lemma Run_app c ctx ls1 ls2 s :
  Run c ctx ls1 = Some s → Run c ctx (ls1 ++ ls2) = exec c ctx s ls2.
Proof. unfold Run. intros H. by rewrite exec_app, H. Qed.
End Http.

(** * A concrete service

    One instance of the collaborators, used to run the model: the caller's
    state is a flag that the health predicate reads and flips, the router
    is a list of registrations searched in order. *)

Module Demo.

Definition Env : Type := bool.

(** A stand-in for the formatter of the standard library. *)
Definition Duration_String (d : Duration) : string := pretty d +:+ "ns".

Definition healthBody (s : HealthStatus) : string :=
  match s with
  | Degraded => "warning"
  | _ => ""
  end.

Definition okHandler : @Handler Env :=
  λ _ w, (Responded (mkResponse 200 "ok"), w).

Definition boomHandler : @Handler Env :=
  λ _ w, (Panicked "boom", w).

Definition notFound : @Handler Env :=
  λ _ w, (Responded (mkResponse 404 "not found"), w).

Definition Router : Type := list (string * string * @Handler Env).

Definition register (r : Router) (m p : string) (h : @Handler Env) : Router :=
  r ++ [(m, p, h)].

Fixpoint dispatch (r : Router) : @Handler Env :=
  match r with
  | [] => notFound
  | (m, p, h) :: rest =>
      λ req w,
        if bool_decide (reqMethod req = m ∧ reqPath req = p) then h req w
        else dispatch rest req w
  end.

Definition profilingRoutes : list (@Route Env) :=
  [mkRoute "/debug/pprof/" "GET" okHandler []].
Definition metricRoute : @Route Env := mkRoute "/metrics" "GET" okHandler [].
Definition infoRoute : @Route Env := mkRoute "/info" "GET" okHandler [].

(** The functions of the model at this instance. *)
Abbreviation new :=
  (New (Env:=Env) Duration_String profilingRoutes metricRoute infoRoute healthBody).

Abbreviation build c :=
  (createInfo (Env:=Env) Duration_String
     (appendBuiltins profilingRoutes metricRoute infoRoute healthBody c)).

Abbreviation server :=
  (createHTTPServer (Env:=Env) Router [] register register dispatch).

Abbreviation run :=
  (Run (Env:=Env) Router [] register register dispatch).

(** Options in the style of the construction surface of section 6. *)
Definition Secure (cert key : string) : @OptionFunc Env :=
  λ c, (mkComponent (hc c) (httpPort c) (httpReadTimeout c) (httpWriteTimeout c)
          (info c) (routes c) (middlewares c) cert key, None).

Definition Routes (rr : list (@Route Env)) : @OptionFunc Env :=
  λ c, (set_routes c (routes c ++ rr), None).

Definition Middlewares (mm : list (@MiddlewareFunc Env)) : @OptionFunc Env :=
  λ c, (mkComponent (hc c) (httpPort c) (httpReadTimeout c) (httpWriteTimeout c)
          (info c) (routes c) (middlewares c ++ mm) (certFile c) (keyFile c), None).

Definition HealthCheck (hcf : @HealthCheckFunc Env) : @OptionFunc Env :=
  λ c, (mkComponent hcf (httpPort c) (httpReadTimeout c) (httpWriteTimeout c)
          (info c) (routes c) (middlewares c) (certFile c) (keyFile c), None).

Definition Port (p : Z) : @OptionFunc Env :=
  λ c, if bool_decide (1 ≤ p ≤ 65535)%Z then
         (mkComponent (hc c) p (httpReadTimeout c) (httpWriteTimeout c)
            (info c) (routes c) (middlewares c) (certFile c) (keyFile c), None)
       else (c, Some "invalid port").

(** An option that writes to the map [Info] hands out. *)
Definition writeInfo (k : string) (v : value) : @OptionFunc Env :=
  λ c, (set_info c (<[k := v]> (Info c)), None).

(** A health predicate that flips the flag on every call. *)
Definition flip : @HealthCheckFunc Env :=
  λ w, (if wenv w then Healthy else Unhealthy,
        mkWorld (negb (wenv w)) (wlog w)).

(** Middlewares: one records the request path, one raises a fault on
    the path it guards and lets every other request through. *)
Definition logging : @MiddlewareFunc Env :=
  λ next req w, next req (mkWorld (wenv w) (wlog w ++ [reqPath req])).

Definition panicking : @MiddlewareFunc Env :=
  λ next req w,
    if bool_decide (reqPath req = "/admin") then (Panicked "boom", w)
    else next req w.

(** A middleware that records its name when the request passes it. *)
Definition tagging (name : string) : @MiddlewareFunc Env :=
  λ next req w, next req (mkWorld (wenv w) (wlog w ++ [name])).

Definition boomRoute : @Route Env := mkRoute "/boom" "GET" boomHandler [].
Definition userRoute : @Route Env := mkRoute "/api/articles" "GET" okHandler [].

Definition ctx0 : Ctx := mkCtx 0 None.
Definition w0 : @World Env := mkWorld true [].
Definition getHealth : Request := mkRequest "GET" "/health".
Definition getBoom : Request := mkRequest "GET" "/boom".
Definition getAdmin : Request := mkRequest "GET" "/admin".

(** Components built by [new]. *)
Definition cTLS : @Component Env :=
  build (Secure "cert.pem" "key.pem" defaultComponent).1.
Definition cRoutes : @Component Env :=
  build (Routes [userRoute; boomRoute] (Middlewares [logging] defaultComponent).1).1.
Definition cInjected : @Component Env :=
  build (writeInfo "key-file" (VString "stray") defaultComponent).1.
Definition cPanicking : @Component Env :=
  build (Middlewares [panicking] defaultComponent).1.
Definition cTagged : @Component Env :=
  build (Routes [boomRoute]
           (Middlewares [tagging "A"; tagging "B"; tagging "C"] defaultComponent).1).1.

Definition tlsError : error := Some "open cert.pem: no such file or directory".
Definition bindError : error := Some "listen tcp :50000: bind: address already in use".

(** The TLS listener fails, [Run] receives the error, the background path
    goes on to the plaintext listener, which fails too. *)
Definition twoFailures : list Label :=
  [LRun; LRun; LRun; LBg; LServeReturns tlsError; LRecv; LBg;
   LServeReturns bindError].

Definition afterTwoFailures : @State Env :=
  {| caller := RunReturned tlsError;
     bg := Bg149Send bindError;
     mu := false;
     done := false;
     srv := Some (server cTLS);
     trace :=
       [ELock; ELog "applying tracing to routes"; EGo; EUnlock;
        ELog "HTTPS component listening on port 50000";
        EListenAndServeTLS (server cTLS) "cert.pem" "key.pem";
        ESend tlsError; ERunReturned tlsError;
        ELog "HTTP component listening on port 50000";
        EListenAndServe (server cTLS)] |}.

(** The token fires while the plaintext listener serves; the shutdown
    drains cleanly. *)
Definition cancelled : list Label :=
  [LRun; LRun; LRun; LBg; LBg; LCtxDone; LDone; LShutdownReturns None].

Definition afterCancelled : @State Env :=
  {| caller := RunReturned None;
     bg := Bg149Serving;
     mu := false;
     done := true;
     srv := Some (server cRoutes);
     trace :=
       [ELock; ELog "applying tracing to routes"; EGo; EUnlock;
        ELog "HTTP component listening on port 50000";
        EListenAndServe (server cRoutes);
        ELog "shutting down component";
        EShutdown (server cRoutes) ctx0;
        EShutdownReturned None; ERunReturned None] |}.


(** The plaintext listener fails (the port is taken) and [Run] receives
    the error. *)
Definition plainFailure : list Label :=
  [LRun; LRun; LRun; LBg; LBg; LServeReturns bindError; LRecv].

Definition afterPlainFailure : @State Env :=
  {| caller := RunReturned bindError;
     bg := BgEnd;
     mu := false;
     done := false;
     srv := Some (server cRoutes);
     trace :=
       [ELock; ELog "applying tracing to routes"; EGo; EUnlock;
        ELog "HTTP component listening on port 50000";
        EListenAndServe (server cRoutes);
        ESend bindError; ERunReturned bindError] |}.

(** After the clean shutdown the listen call returns at last; nobody is
    left to receive its error. *)
Definition serverClosed : error := Some "http: Server closed".

Definition afterCancelledLate : @State Env :=
  {| caller := RunReturned None;
     bg := Bg149Send serverClosed;
     mu := false;
     done := true;
     srv := Some (server cRoutes);
     trace := trace afterCancelled |}.

(** Hosts of the command: the service is just its name. *)
Definition undefinedFlag : string := "flag provided but not defined: -x".

Definition host (flags : Main.FlagParse) (setup new run : error) : Main.Host string :=
  {| Main.flagParse := flags;
     Main.arg0 := "api";
     Main.runtimeVersion := "go1.13";
     Main.patron_Setup := λ _ _, setup;
     Main.patron_New := λ name _, (name, new);
     Main.Service_Run := λ _, run |}.
End Demo.

Example new_cTLS : Demo.new [Demo.Secure "cert.pem" "key.pem"] = (Some Demo.cTLS, None).
Proof. reflexivity. Qed.

Example new_cRoutes :
  Demo.new [Demo.Middlewares [Demo.logging]; Demo.Routes [Demo.userRoute; Demo.boomRoute]]
  = (Some Demo.cRoutes, None).
Proof. reflexivity. Qed.

Example new_first_failure :
  Demo.new [Demo.Port 8080; Demo.Port 0; Demo.Secure "cert.pem" "key.pem"]
  = (None, Some "invalid port").
Proof. reflexivity. Qed.

Example serve_fault_then_normal :
  (serve (SHandler (Demo.server Demo.cRoutes)) [Demo.getBoom; Demo.getHealth] Demo.w0).1
  = [Some (mkResponse 500 ""); Some (mkResponse 200 "")].
Proof. vm_compute. reflexivity. Qed.

(** The request passes the middlewares in the order of the list, then the
    recovery wrapper, then the router. *)
Example middlewares_outermost_first :
  SHandler (Demo.server Demo.cTagged) Demo.getBoom Demo.w0 =
  (Responded (mkResponse 500 ""),
   mkWorld true ["A"; "B"; "C"; "recovered from panic: boom"]).
Proof. vm_compute. reflexivity. Qed.

Example health_flips :
  (serve (RHandler (healthCheckRoute Demo.healthBody Demo.flip))
     [Demo.getHealth; Demo.getHealth] Demo.w0).1
  = [Some (mkResponse 200 ""); Some (mkResponse 503 "")].
Proof. reflexivity. Qed.

(** ** The theorems at the concrete service *)

(** C5 at [cRoutes]: two caller routes, then the four built-in groups. *)
Lemma New_routes_builtins_last_witness :
  Demo.new [Demo.Middlewares [Demo.logging]; Demo.Routes [Demo.userRoute; Demo.boomRoute]]
    = (Some Demo.cRoutes, None) ∧
  routes Demo.cRoutes =
    [Demo.userRoute; Demo.boomRoute;
     healthCheckRoute Demo.healthBody DefaultHealthCheck;
     mkRoute "/debug/pprof/" "GET" Demo.okHandler [];
     Demo.metricRoute; Demo.infoRoute] ∧
  length (routes Demo.cRoutes) = 6%nat.
Proof.
  assert (Demo.new [Demo.Middlewares [Demo.logging];
                    Demo.Routes [Demo.userRoute; Demo.boomRoute]]
          = (Some Demo.cRoutes, None)) as HN by reflexivity.
  split; [exact HN|].
  destruct (New_routes_builtins_last Demo.Duration_String Demo.profilingRoutes
              Demo.metricRoute Demo.infoRoute Demo.healthBody _ _ HN)
    as (c' & Hoo & Hr & Hlen & _).
  injection Hoo as <-.
  split; [exact Hr|exact Hlen].
Defined.

(** C6 as stated fails at [cInjected]: the option wrote [key-file] into
    the map, TLS is not active, and the key is still there. *)
Lemma New_info_exactly_when_fails :
  Demo.new [Demo.writeInfo "key-file" (VString "stray")] = (Some Demo.cInjected, None) ∧
  ¬ info_as_claimed Demo.Duration_String Demo.cInjected.
Proof.
  split; [reflexivity|].
  intros (_ & _ & _ & _ & _ & Hk & _).
  assert (tlsActive Demo.cInjected) as [Hc _].
  { apply Hk. exists (VString "stray"). vm_compute. reflexivity. }
  apply Hc. reflexivity.
Qed.

(** C6 as amended at [cTLS]: the TLS keys hold the two paths. *)
Lemma New_info_witness :
  Demo.new [Demo.Secure "cert.pem" "key.pem"] = (Some Demo.cTLS, None) ∧
  info Demo.cTLS !! "type" = Some (VString "https") ∧
  info Demo.cTLS !! "port" = Some (VInt 50000) ∧
  info Demo.cTLS !! "key-file" = Some (VString "key.pem") ∧
  info Demo.cTLS !! "cert-file" = Some (VString "cert.pem").
Proof.
  assert (Demo.new [Demo.Secure "cert.pem" "key.pem"] = (Some Demo.cTLS, None))
    as HN by reflexivity.
  split; [exact HN|].
  destruct (New_info Demo.Duration_String Demo.profilingRoutes
              Demo.metricRoute Demo.infoRoute Demo.healthBody _ _ HN)
    as (c' & _ & Ht & Hp & _ & _ & _ & Htls & _).
  assert (tlsActive Demo.cTLS) as Hact by (split; discriminate).
  destruct (Htls Hact) as [Hk Hc].
  destruct (decide (tlsActive Demo.cTLS)) as [_|Hn]; [|destruct (Hn Hact)].
  repeat split; assumption.
Defined.

(** C10 at [cTLS]: no option touches the predicate. *)
Lemma New_default_health_witness :
  Forall keeps_hc [Demo.Secure "cert.pem" "key.pem"] ∧
  Demo.new [Demo.Secure "cert.pem" "key.pem"] = (Some Demo.cTLS, None) ∧
  hc Demo.cTLS = DefaultHealthCheck ∧
  RHandler (healthCheckRoute Demo.healthBody (hc Demo.cTLS)) Demo.getHealth Demo.w0 =
    (Responded (mkResponse 200 ""), Demo.w0).
Proof.
  assert (Forall keeps_hc [Demo.Secure "cert.pem" "key.pem"]) as Hk.
  { repeat constructor. }
  assert (Demo.new [Demo.Secure "cert.pem" "key.pem"] = (Some Demo.cTLS, None))
    as HN by reflexivity.
  split; [exact Hk|]. split; [exact HN|].
  destruct (New_default_health Demo.Duration_String Demo.profilingRoutes
              Demo.metricRoute Demo.infoRoute Demo.healthBody _ _ Hk HN)
    as (Hd & _ & _ & Hh).
  split; [exact Hd|apply Hh].
Defined.

(** C8 as stated fails at [cPanicking]: the fault of the component-level
    middleware on [/admin] leaves the installed handler as a panic; the
    recovery wrapper writes no response and logs nothing for it. The
    serving path goes on and answers the next request. *)
Lemma recovery_misses_component_middleware :
  Demo.new [Demo.Middlewares [Demo.panicking]] = (Some Demo.cPanicking, None) ∧
  SHandler (Demo.server Demo.cPanicking) Demo.getAdmin Demo.w0 =
    (Panicked "boom", Demo.w0) ∧
  serve (SHandler (Demo.server Demo.cPanicking)) [Demo.getAdmin; Demo.getHealth] Demo.w0 =
    ([None; Some (mkResponse 200 "")], Demo.w0) ∧
  ¬ responds (SHandler (Demo.server Demo.cPanicking)).
Proof.
  split; [reflexivity|]. split; [reflexivity|].
  split; [vm_compute; reflexivity|].
  intros Hr. destruct (Hr Demo.getAdmin Demo.w0) as (r & w' & H).
  discriminate H.
Qed.

(** C8 as amended: at [cRoutes] the fault of the route [/boom] becomes a
    500 and every request is answered; at [cPanicking] the fault of the
    middleware is not converted and that request gets no response. *)
Lemma recovery_contains_router_faults_witness :
  Forall safe_mw (middlewares Demo.cRoutes) ∧
  Forall is_Some
    (serve (SHandler (Demo.server Demo.cRoutes)) [Demo.getBoom; Demo.getHealth] Demo.w0).1 ∧
  middlewares Demo.cPanicking = [Demo.panicking] ∧
  (∀ next, Demo.panicking next Demo.getAdmin Demo.w0 = (Panicked "boom", Demo.w0)) ∧
  SHandler (Demo.server Demo.cPanicking) Demo.getAdmin Demo.w0 =
    (Panicked "boom", Demo.w0) ∧
  serve (SHandler (Demo.server Demo.cPanicking)) [Demo.getAdmin] Demo.w0 =
    ([None], Demo.w0).
Proof.
  assert (Forall safe_mw (middlewares Demo.cRoutes)) as Hmm.
  { repeat constructor. intros next Hn req w. apply Hn. }
  assert (∀ next, Demo.panicking next Demo.getAdmin Demo.w0 =
                  (Panicked "boom", Demo.w0)) as Hp by done.
  split; [exact Hmm|].
  destruct (recovery_contains_router_faults Demo.Router []
              Demo.register Demo.register Demo.dispatch Demo.cRoutes)
    as (_ & _ & Hsafe & _).
  destruct (Hsafe Hmm) as (_ & Hserve).
  split; [apply Hserve|]. split; [reflexivity|]. split; [exact Hp|].
  destruct (recovery_contains_router_faults Demo.Router []
              Demo.register Demo.register Demo.dispatch Demo.cPanicking)
    as (_ & _ & _ & _ & Hout & _).
  exact (Hout Demo.panicking [] Demo.getAdmin Demo.w0 "boom" Demo.w0 eq_refl Hp).
Defined.

(** C1 at [cTLS]: the certificate cannot be read, [Run] returns that
    error, and the background path calls [ListenAndServe]. *)
Lemma tls_failure_then_plaintext_listen_witness :
  tlsActive Demo.cTLS ∧
  ∃ s,
    Demo.run Demo.cTLS Demo.ctx0
      [LRun; LRun; LRun; LBg; LServeReturns Demo.tlsError; LRecv; LBg] = Some s ∧
    caller s = RunReturned Demo.tlsError ∧
    bg s = Bg149Serving ∧
    trace s =
      [ELock; ELog "applying tracing to routes"; EGo; EUnlock;
       ELog "HTTPS component listening on port 50000";
       EListenAndServeTLS (Demo.server Demo.cTLS) "cert.pem" "key.pem";
       ESend Demo.tlsError; ERunReturned Demo.tlsError;
       ELog "HTTP component listening on port 50000";
       EListenAndServe (Demo.server Demo.cTLS)] ∧
    tlsListens (trace s) = [("cert.pem", "key.pem")] ∧
    plainListens (trace s) = 1%nat ∧
    shutdowns (trace s) = [].
Proof.
  assert (tlsActive Demo.cTLS) as Hact by (split; discriminate).
  split; [exact Hact|].
  exact (tls_failure_then_plaintext_listen Demo.Router []
           Demo.register Demo.register Demo.dispatch Demo.cTLS Demo.ctx0
           Demo.tlsError Hact).
Defined.

Lemma run_twoFailures :
  Demo.run Demo.cTLS Demo.ctx0 Demo.twoFailures = Some Demo.afterTwoFailures.
Proof.
  apply (Run_two_failures Demo.Router []
           Demo.register Demo.register Demo.dispatch Demo.cTLS).
  split; discriminate.
Qed.

Lemma run_cancelled :
  Demo.run Demo.cRoutes Demo.ctx0 Demo.cancelled = Some Demo.afterCancelled.
Proof.
  apply (Run_cancelled_while_serving Demo.Router []
           Demo.register Demo.register Demo.dispatch Demo.cRoutes).
  intros [Hc _]. by apply Hc.
Qed.

(** C2 at [cTLS]: both listeners fail, the second error is never
    delivered. *)
Lemma tls_component_reaches_second_send_witness :
  tlsActive Demo.cTLS ∧
  ∃ s,
    Demo.run Demo.cTLS Demo.ctx0 Demo.twoFailures = Some s ∧
    served Demo.twoFailures = [Demo.tlsError; Demo.bindError] ∧
    sends (trace s) = [Demo.tlsError] ∧
    caller s = RunReturned Demo.tlsError ∧
    bg s = Bg149Send Demo.bindError ∧
    ∀ ls' s', exec Demo.Router [] Demo.register Demo.register Demo.dispatch
                Demo.cTLS Demo.ctx0 s ls' = Some s' →
      caller s' = RunReturned Demo.tlsError ∧ bg s' = Bg149Send Demo.bindError ∧
      sends (trace s') = [Demo.tlsError].
Proof.
  assert (tlsActive Demo.cTLS) as Hact by (split; discriminate).
  split; [exact Hact|].
  exact (tls_component_reaches_second_send Demo.Router []
           Demo.register Demo.register Demo.dispatch Demo.cTLS Demo.ctx0
           Demo.tlsError Demo.bindError Hact).
Defined.

(** C3 at [cRoutes]: the token fires, [Shutdown] is called with it and
    drains cleanly, [Run] returns nil. *)
Lemma Run_returns_failure_or_shutdown_witness :
  Demo.run Demo.cRoutes Demo.ctx0 Demo.cancelled = Some Demo.afterCancelled ∧
  caller Demo.afterCancelled = RunReturned None ∧
  runReturns (trace Demo.afterCancelled) = [None] ∧
  ((sends (trace Demo.afterCancelled) = [None] ∧
    shutdowns (trace Demo.afterCancelled) = [] ∧
    shutdownResults (trace Demo.afterCancelled) = []) ∨
   (sends (trace Demo.afterCancelled) = [] ∧
    shutdowns (trace Demo.afterCancelled) = [(Demo.server Demo.cRoutes, Demo.ctx0)] ∧
    shutdownResults (trace Demo.afterCancelled) = [None])).
Proof.
  split; [exact run_cancelled|]. split; [reflexivity|].
  destruct (Run_returns_failure_or_shutdown Demo.Router []
              Demo.register Demo.register Demo.dispatch Demo.cRoutes Demo.ctx0
              Demo.cancelled Demo.afterCancelled run_cancelled)
    as (_ & _ & _ & H4).
  destruct (H4 None eq_refl) as (Hr & Hcases & _).
  split; [exact Hr|exact Hcases].
Defined.

(** * The command: exit status and calls *)


(** X15. The framework calls are made in the order Setup, New, Run, each
    at most once and each only after the one before it succeeded, always
    with the fixed service name and the version. None is made when
    [flag.Parse] ends the process or the version flag is set; New is
    called exactly when the flags were parsed without the version flag and
    Setup succeeded, Run exactly when New succeeded as well. *)
Theorem main_calls_in_order {Service : Type} (h : Main.Host Service) :
  Main.calls (Main.main h).2 `prefix_of`
    [Main.CallSetup Main.serviceName Main.theVersion;
     Main.CallNew Main.serviceName Main.theVersion;
     Main.CallRun] ∧
  (Main.calls (Main.main h).2 = [] ↔ Main.flagParse h ≠ Main.Parsed false) ∧
  (Main.CallNew Main.serviceName Main.theVersion ∈ Main.calls (Main.main h).2 ↔
     Main.flagParse h = Main.Parsed false ∧
     Main.patron_Setup h Main.serviceName Main.theVersion = None) ∧
  (Main.CallRun ∈ Main.calls (Main.main h).2 ↔
     Main.flagParse h = Main.Parsed false ∧
     Main.patron_Setup h Main.serviceName Main.theVersion = None ∧
     (Main.patron_New h Main.serviceName Main.theVersion).2 = None).
Proof.
  unfold Main.main, Main.run.
  destruct (Main.flagParse h) as [[|]|code text] eqn:Hf; simpl.
  1,3: split_and!; try done; try (by eexists);
    (split; [intros Hin; by apply elem_of_nil in Hin|intros [? _]; done]).
  destruct (Main.patron_Setup h Main.serviceName Main.theVersion) as [e1|] eqn:H1; simpl.
  { split_and!.
    - by eexists.
    - split; [done|]. intros Hn. by destruct Hn.
    - split; [|intros [_ ?]; done].
      intros Hin. apply list_elem_of_singleton in Hin. discriminate.
    - split; [|intros (_ & ? & _); done].
      intros Hin. apply list_elem_of_singleton in Hin. discriminate. }
  destruct (Main.patron_New h Main.serviceName Main.theVersion) as [sv [e2|]] eqn:H2; simpl.
  { split_and!.
    - by eexists.
    - split; [done|]. intros Hn. by destruct Hn.
    - split; [done|]. intros _. rewrite !elem_of_cons. auto.
    - split; [|intros (_ & _ & ?); done].
      rewrite !elem_of_cons. intros [?|[?|Hin]]; try discriminate.
      by apply elem_of_nil in Hin. }
  destruct (Main.Service_Run h sv) as [e3|]; simpl.
  all: split_and!; try (by eexists);
    try (split; [done|]; intros Hn; by destruct Hn);
    (split; [done|]; intros _; rewrite !elem_of_cons; auto).
Qed.

(** * Further properties at the concrete service *)

Lemma run_plainFailure :
  Demo.run Demo.cRoutes Demo.ctx0 Demo.plainFailure = Some Demo.afterPlainFailure.
Proof.
  apply (Run_plain_failure Demo.Router []
           Demo.register Demo.register Demo.dispatch Demo.cRoutes).
  intros [Hc _]. by apply Hc.
Qed.

Lemma run_cancelledLate :
  Demo.run Demo.cRoutes Demo.ctx0 (Demo.cancelled ++ [LServeReturns Demo.serverClosed])
  = Some Demo.afterCancelledLate.
Proof.
  rewrite (Run_app _ _ _ _ _ _ _ _ _ _ run_cancelled).
  cbv [exec step stepServeReturns set_bg caller bg mu done srv trace
       Demo.afterCancelled Demo.afterCancelledLate].
  reflexivity.
Qed.

Lemma cTLS_tlsActive : tlsActive Demo.cTLS.
Proof. split; discriminate. Qed.

Lemma cRoutes_not_tlsActive : ¬ tlsActive Demo.cRoutes.
Proof. intros [Hc _]. by apply Hc. Qed.

(** X2 at [cRoutes], after the failed plaintext listener. *)
Lemma plaintext_component_never_listens_tls_witness :
  ¬ tlsActive Demo.cRoutes ∧
  Demo.run Demo.cRoutes Demo.ctx0 Demo.plainFailure = Some Demo.afterPlainFailure ∧
  tlsListens (trace Demo.afterPlainFailure) = [] ∧
  (plainListens (trace Demo.afterPlainFailure) ≤ 1)%nat ∧
  (length (served Demo.plainFailure) ≤ 1)%nat.
Proof.
  split; [exact cRoutes_not_tlsActive|]. split; [exact run_plainFailure|].
  exact (plaintext_component_never_listens_tls Demo.Router []
           Demo.register Demo.register Demo.dispatch Demo.cRoutes Demo.ctx0
           Demo.plainFailure Demo.afterPlainFailure
           cRoutes_not_tlsActive run_plainFailure).
Defined.

(** X3 at [cTLS], after both listeners failed. *)
Lemma tls_component_listens_tls_first_witness :
  tlsActive Demo.cTLS ∧
  Demo.run Demo.cTLS Demo.ctx0 Demo.twoFailures = Some Demo.afterTwoFailures ∧
  (plainListens (trace Demo.afterTwoFailures) ≤
     length (sends (trace Demo.afterTwoFailures)))%nat ∧
  tlsListens (trace Demo.afterTwoFailures) = [("cert.pem", "key.pem")] ∧
  ∃ e, head (served Demo.twoFailures) = Some e ∧
       sends (trace Demo.afterTwoFailures) = [e] ∧
       caller Demo.afterTwoFailures = RunReturned e.
Proof.
  split; [exact cTLS_tlsActive|]. split; [exact run_twoFailures|].
  destruct (tls_component_listens_tls_first Demo.Router []
              Demo.register Demo.register Demo.dispatch Demo.cTLS Demo.ctx0
              Demo.twoFailures Demo.afterTwoFailures
              cTLS_tlsActive run_twoFailures) as (_ & Hle & _ & Himp).
  split; [exact Hle|]. apply Himp. repeat constructor.
Defined.

(** X4 at [cRoutes], after the failed plaintext listener. *)
Lemma background_path_ends_only_after_plain_failure_witness :
  Demo.run Demo.cRoutes Demo.ctx0 Demo.plainFailure = Some Demo.afterPlainFailure ∧
  bg Demo.afterPlainFailure = BgEnd ∧
  ¬ tlsActive Demo.cRoutes ∧
  ∃ e, served Demo.plainFailure = [e] ∧
       caller Demo.afterPlainFailure = RunReturned e ∧
       sends (trace Demo.afterPlainFailure) = [e] ∧
       shutdowns (trace Demo.afterPlainFailure) = [] ∧
       plainListens (trace Demo.afterPlainFailure) = 1%nat.
Proof.
  split; [exact run_plainFailure|]. split; [reflexivity|].
  exact (background_path_ends_only_after_plain_failure Demo.Router [] Demo.register Demo.register Demo.dispatch
           Demo.cRoutes Demo.ctx0 Demo.plainFailure Demo.afterPlainFailure
           run_plainFailure eq_refl).
Defined.

(** X5 at [cTLS]: [Run] returned the error of the TLS listener, not the
    later one of the plaintext listener. *)
Lemma Run_receives_first_listen_error_witness :
  Demo.run Demo.cTLS Demo.ctx0 Demo.twoFailures = Some Demo.afterTwoFailures ∧
  Demo.tlsError ∈ sends (trace Demo.afterTwoFailures) ∧
  head (served Demo.twoFailures) = Some Demo.tlsError ∧
  caller Demo.afterTwoFailures = RunReturned Demo.tlsError.
Proof.
  split; [exact run_twoFailures|].
  assert (Demo.tlsError ∈ sends (trace Demo.afterTwoFailures)) as Hin
    by repeat constructor.
  split; [exact Hin|].
  exact (proj2 (Run_receives_first_listen_error Demo.Router []
                  Demo.register Demo.register Demo.dispatch Demo.cTLS Demo.ctx0
                  Demo.twoFailures Demo.afterTwoFailures run_twoFailures)
           Demo.tlsError Hin).
Defined.

(** X6 at [cRoutes]: the listen call returns after the shutdown. *)
Lemma Run_return_is_final_witness :
  Demo.run Demo.cRoutes Demo.ctx0 Demo.cancelled = Some Demo.afterCancelled ∧
  caller Demo.afterCancelled = RunReturned None ∧
  Demo.run Demo.cRoutes Demo.ctx0 (Demo.cancelled ++ [LServeReturns Demo.serverClosed])
    = Some Demo.afterCancelledLate ∧
  caller Demo.afterCancelledLate = RunReturned None ∧
  runReturns (trace Demo.afterCancelledLate) = [None] ∧
  sends (trace Demo.afterCancelledLate) = sends (trace Demo.afterCancelled) ∧
  shutdowns (trace Demo.afterCancelledLate) = shutdowns (trace Demo.afterCancelled) ∧
  shutdownResults (trace Demo.afterCancelledLate) =
    shutdownResults (trace Demo.afterCancelled) ∧
  mu Demo.afterCancelledLate = false.
Proof.
  split; [exact run_cancelled|]. split; [reflexivity|].
  split; [exact run_cancelledLate|].
  exact (Run_return_is_final Demo.Router []
           Demo.register Demo.register Demo.dispatch Demo.cRoutes Demo.ctx0
           Demo.cancelled [LServeReturns Demo.serverClosed]
           Demo.afterCancelled Demo.afterCancelledLate None
           run_cancelled eq_refl run_cancelledLate).
Defined.

(** X7 at [cRoutes], after the cancelled run. *)
Lemma Shutdown_only_after_cancellation_witness :
  Demo.run Demo.cRoutes Demo.ctx0 Demo.cancelled = Some Demo.afterCancelled ∧
  shutdowns (trace Demo.afterCancelled) ≠ [] ∧
  done Demo.afterCancelled = true ∧
  LCtxDone ∈ Demo.cancelled.
Proof.
  split; [exact run_cancelled|].
  assert (shutdowns (trace Demo.afterCancelled) ≠ []) as Hne by discriminate.
  split; [exact Hne|].
  exact (proj1 (Shutdown_only_after_cancellation Demo.Router []
                  Demo.register Demo.register Demo.dispatch Demo.cRoutes Demo.ctx0
                  Demo.cancelled Demo.afterCancelled run_cancelled) Hne).
Defined.


(** X10 at [cTLS]. *)
Lemma New_info_exact_keys_witness :
  Forall keeps_info [Demo.Secure "cert.pem" "key.pem"] ∧
  Demo.new [Demo.Secure "cert.pem" "key.pem"] = (Some Demo.cTLS, None) ∧
  (is_Some (info Demo.cTLS !! "key-file") ↔
   "key-file" ∈ (if decide (tlsActive Demo.cTLS) then infoKeys
                 else ["type"; "port"; "read-timeout"; "write-timeout"; "idle-timeout"])) ∧
  (is_Some (info Demo.cTLS !! "version") ↔
   "version" ∈ (if decide (tlsActive Demo.cTLS) then infoKeys
                else ["type"; "port"; "read-timeout"; "write-timeout"; "idle-timeout"])).
Proof.
  assert (Forall keeps_info [Demo.Secure "cert.pem" "key.pem"]) as Hk
    by repeat constructor.
  split; [exact Hk|]. split; [exact new_cTLS|]. split.
  - exact (New_info_exact_keys Demo.Duration_String Demo.profilingRoutes
             Demo.metricRoute Demo.infoRoute Demo.healthBody _ _ "key-file"
             Hk new_cTLS).
  - exact (New_info_exact_keys Demo.Duration_String Demo.profilingRoutes
             Demo.metricRoute Demo.infoRoute Demo.healthBody _ _ "version"
             Hk new_cTLS).
Defined.

(** X11 at [cTLS]. *)
Lemma info_agrees_with_listener_witness :
  Demo.new [Demo.Secure "cert.pem" "key.pem"] = (Some Demo.cTLS, None) ∧
  Demo.run Demo.cTLS Demo.ctx0 Demo.twoFailures = Some Demo.afterTwoFailures ∧
  ("cert.pem", "key.pem") ∈ tlsListens (trace Demo.afterTwoFailures) ∧
  info Demo.cTLS !! "type" = Some (VString "https") ∧
  info Demo.cTLS !! "cert-file" = Some (VString "cert.pem") ∧
  info Demo.cTLS !! "key-file" = Some (VString "key.pem").
Proof.
  split; [exact new_cTLS|]. split; [exact run_twoFailures|].
  assert (("cert.pem", "key.pem") ∈ tlsListens (trace Demo.afterTwoFailures))
    as Hin by repeat constructor.
  split; [exact Hin|].
  exact (proj2 (info_agrees_with_listener Demo.Duration_String Demo.profilingRoutes
                  Demo.metricRoute Demo.infoRoute Demo.healthBody
                  Demo.Router [] Demo.register Demo.register
                  Demo.dispatch _ _ Demo.ctx0 _ _ new_cTLS run_twoFailures)
           "cert.pem" "key.pem" Hin).
Defined.

(** X12 at [cRoutes], after the cancelled run. *)
Lemma info_agrees_with_server_witness :
  Demo.new [Demo.Middlewares [Demo.logging]; Demo.Routes [Demo.userRoute; Demo.boomRoute]]
    = (Some Demo.cRoutes, None) ∧
  Demo.run Demo.cRoutes Demo.ctx0 Demo.cancelled = Some Demo.afterCancelled ∧
  ∃ p r w,
    info Demo.cRoutes !! "port" = Some (VInt p) ∧
    info Demo.cRoutes !! "read-timeout" = Some (VString (Demo.Duration_String r)) ∧
    info Demo.cRoutes !! "write-timeout" = Some (VString (Demo.Duration_String w)) ∧
    info Demo.cRoutes !! "idle-timeout" =
      Some (VString (Demo.Duration_String (120 * Const.Second)%Z)) ∧
    Forall (λ sv, Addr sv = ":" +:+ pretty p ∧
                  ReadTimeout sv = r ∧ WriteTimeout sv = w ∧
                  IdleTimeout sv = (120 * Const.Second)%Z)
           (servers (trace Demo.afterCancelled)).
Proof.
  split; [exact new_cRoutes|]. split; [exact run_cancelled|].
  exact (info_agrees_with_server Demo.Duration_String Demo.profilingRoutes
           Demo.metricRoute Demo.infoRoute Demo.healthBody
           Demo.Router [] Demo.register Demo.register
           Demo.dispatch _ _ Demo.ctx0 _ _ new_cRoutes run_cancelled).
Defined.

(** X13 at [cRoutes]. *)
Lemma New_plaintext_by_default_witness :
  Forall keeps_tls [Demo.Middlewares [Demo.logging];
                    Demo.Routes [Demo.userRoute; Demo.boomRoute]] ∧
  Demo.new [Demo.Middlewares [Demo.logging]; Demo.Routes [Demo.userRoute; Demo.boomRoute]]
    = (Some Demo.cRoutes, None) ∧
  info Demo.cRoutes !! "type" = Some (VString "http") ∧
  tlsListens (trace Demo.afterPlainFailure) = [].
Proof.
  assert (Forall keeps_tls [Demo.Middlewares [Demo.logging];
                            Demo.Routes [Demo.userRoute; Demo.boomRoute]]) as Hk
    by repeat constructor.
  split; [exact Hk|]. split; [exact new_cRoutes|].
  destruct (New_plaintext_by_default Demo.Duration_String Demo.profilingRoutes
              Demo.metricRoute Demo.infoRoute Demo.healthBody
              Demo.Router [] Demo.register Demo.register
              Demo.dispatch _ _ Hk new_cRoutes) as (_ & _ & Hty & Hrun).
  split; [exact Hty|].
  exact (Hrun Demo.ctx0 Demo.plainFailure Demo.afterPlainFailure run_plainFailure).
Defined.


Lemma main_calls_in_order_witness :
  Main.flagParse (Demo.host (Main.Parsed false) None (Some "no tracer") None)
    = Main.Parsed false ∧
  Main.patron_Setup (Demo.host (Main.Parsed false) None (Some "no tracer") None)
    Main.serviceName Main.theVersion = None ∧
  Main.CallNew Main.serviceName Main.theVersion ∈
    Main.calls (Main.main (Demo.host (Main.Parsed false) None (Some "no tracer") None)).2 ∧
  (Main.CallRun ∉
     Main.calls (Main.main (Demo.host (Main.Parsed false) None (Some "no tracer") None)).2) ∧
  Main.calls (Main.main (Demo.host (Main.ParseExits 2 Demo.undefinedFlag) None None None)).2
    = [].
Proof.
  destruct (main_calls_in_order
              (Demo.host (Main.Parsed false) None (Some "no tracer") None))
    as (_ & _ & HNew & HRun).
  split; [reflexivity|]. split; [reflexivity|]. split; [|split].
  - apply HNew. by split.
  - intros Hin. apply HRun in Hin. destruct Hin as (_ & _ & Hn). discriminate Hn.
  - destruct (main_calls_in_order
                (Demo.host (Main.ParseExits 2 Demo.undefinedFlag) None None None))
      as (_ & Hnone & _).
    apply Hnone. discriminate.
Defined.

Example main_version_flag :
  Main.main (Demo.host (Main.Parsed true) (Some "unused") None None) =
  (0%Z, Main.mkProc ["api dev (runtime: go1.13)" +:+ Main.newline] [] []).
Proof. reflexivity. Qed.

Example main_run_fails :
  Main.main (Demo.host (Main.Parsed false) None None
               (Some "listen tcp :50000: bind: address already in use")) =
  (1%Z,
   Main.mkProc []
     ["Error: failed to run service listen tcp :50000: bind: address already in use"]
     [Main.CallSetup "go-patron-realworld-example-app" "dev";
      Main.CallNew "go-patron-realworld-example-app" "dev";
      Main.CallRun]).
Proof. reflexivity. Qed.
